(** * CarDD COCO-to-directory converter: model and properties

    Shallow embedding of [restructure_data.py].  The script reads three COCO
    annotation files, groups the category names of every annotated image,
    picks one category per image and copies the image file to
    [output_dir/<split>/<category>/<file_name>].

    Modelling conventions.
    - A path is the list of its components; [os.path.join] appends one
      component.  This is what the script does for a name that is one path
      component ([plain_name]: not empty, not [.] or [..], no slash, no NUL
      byte).  A name read from an annotation file that is not plain is
      parsed again by the operating system, which the model does not
      describe; [plain_data] says that an annotation file holds plain
      names only.
    - The file system is a finite map from paths to nodes (directory or
      regular file with its bytes and metadata as one string): a POSIX
      file system where names are compared exactly, without symbolic
      links, on which the calls of the script fail only for the reasons
      the model spells out (a node of the wrong kind where a file or a
      directory is needed, a missing file or directory).
    - Python's call trace to [os.makedirs], [shutil.copy2] and [print] is
      recorded in a log next to the file system.
    - Exceptions are values: a computation returns [Ok] or [Raise], and the
      file system and log reached when the exception is raised are kept.
    - A Python [dict] is insertion ordered: [image_categories] is an
      association list in order of first insertion.  A Python [set] of
      strings iterates in an order fixed by the interpreter process (string
      hashing is seeded per process): [set_order] is that order. *)

From stdpp Require Import base option list strings gmap fin_maps.
From Stdlib Require Import ZArith.

Local Open Scope Z_scope.
Local Open Scope string_scope.
Local Open Scope list_scope.

(** ** Paths and the file system *)

Abbreviation path := (list string).

Inductive node : Type :=
| Dir
| File (c : string).

Global Instance node_eq_dec : EqDecision node.
Proof. solve_decision. Defined.

Abbreviation filesys := (gmap path node).

(** [os.path.join(p, n)] for a name [n] that is one path component. *)
Definition path_join (p : path) (n : string) : path := p ++ [n].

(** The current directory (the empty path) always exists. *)
Definition stat (fs : filesys) (p : path) : option node :=
  match p with
  | [] => Some Dir
  | _ => fs !! p
  end.

Definition is_file (fs : filesys) (p : path) : bool :=
  match stat fs p with Some (File _) => true | _ => false end.

Definition is_dir (fs : filesys) (p : path) : bool :=
  match stat fs p with Some Dir => true | _ => false end.

Definition parent (p : path) : path := take (length p - 1)%nat p.

Definition basename (p : path) : string := default "" (last p).

(** The non-empty prefixes of [p], shortest first: the directories
    [os.makedirs(p)] walks through. *)
Definition ancestors (p : path) : list path :=
  (λ k, take k p) <$> seq 1 (length p).

(** ** Exceptions, call trace and the computation monad *)

Inductive exn : Type :=
| KeyError (k : Z)      (* lookup of an id missing from category_map or image_map *)
| IndexError            (* list index out of range *)
| ValueError            (* json.JSONDecodeError, UnicodeDecodeError: not a JSON document *)
| OSError.              (* FileNotFoundError, FileExistsError, NotADirectoryError,
                           IsADirectoryError, shutil.SameFileError *)

Inductive result (A : Type) : Type :=
| Ok (a : A)
| Raise (e : exn).
Arguments Ok {A} a.
Arguments Raise {A} e.

Inductive event : Type :=
| Makedirs (p : path)
| Copy2 (src dst : path)
| Print (s : string).

Global Instance exn_eq_dec : EqDecision exn.
Proof. solve_decision. Defined.
Global Instance event_eq_dec : EqDecision event.
Proof. solve_decision. Defined.

Record outcome (A : Type) : Type := Outcome {
  res : result A;
  fs_of : filesys;
  log : list event
}.
Arguments Outcome {A} res fs_of log.
Arguments res {A} o.
Arguments fs_of {A} o.
Arguments log {A} o.

Definition M (A : Type) : Type := filesys → outcome A.

Definition ret {A} (a : A) : M A := λ fs, Outcome (Ok a) fs [].

Definition raise {A} (e : exn) : M A := λ fs, Outcome (Raise e) fs [].

Definition bind {A B} (m : M A) (k : A → M B) : M B := λ fs,
  match m fs with
  | Outcome (Ok a) fs1 l1 =>
      let o := k a fs1 in Outcome (res o) (fs_of o) (l1 ++ log o)
  | Outcome (Raise e) fs1 l1 => Outcome (Raise e) fs1 l1
  end.

Notation "x <- m ;; k" := (bind m (λ x, k))
  (at level 100, m at next level, right associativity).
Notation "m ;;; k" := (bind m (λ _, k))
  (at level 100, right associativity).

(** [for x in l: body(x)] *)
Fixpoint for_each {A} (l : list A) (body : A → M unit) : M unit :=
  match l with
  | [] => ret tt
  | x :: l' => body x ;;; for_each l' body
  end.

(** ** Library calls *)

(** [os.makedirs(p, exist_ok=True)]: every prefix of [p] that is missing is
    created; a regular file on the way raises. *)
Definition makedirs_fs (p : path) (fs : filesys) : filesys :=
  foldr (λ q acc, <[q := Dir]> acc) fs (ancestors p).

Definition os_makedirs (p : path) : M unit := λ fs,
  if existsb (is_file fs) (ancestors p)
  then Outcome (Raise OSError) fs [Makedirs p]
  else Outcome (Ok tt) (makedirs_fs p fs) [Makedirs p].

(** [os.path.exists(p)] *)
Definition os_path_exists (p : path) : M bool := λ fs,
  Outcome (Ok (bool_decide (is_Some (stat fs p)))) fs [].

(** [shutil.copy2(src, dst)]: data and metadata of [src] are written to
    [dst], or to [dst/basename(src)] when [dst] is a directory. *)
Definition shutil_copy2 (src dst : path) : M unit := λ fs,
  match stat fs src with
  | Some (File c) =>
      let dst' := if is_dir fs dst then path_join dst (basename src) else dst in
      if bool_decide (dst' = src) then Outcome (Raise OSError) fs [Copy2 src dst]
      else if is_dir fs dst' then Outcome (Raise OSError) fs [Copy2 src dst]
      else if is_dir fs (parent dst')
           then Outcome (Ok tt) (<[dst' := File c]> fs) [Copy2 src dst]
           else Outcome (Raise OSError) fs [Copy2 src dst]
  | _ => Outcome (Raise OSError) fs [Copy2 src dst]
  end.

(** [print(s)] *)
Definition print (s : string) : M unit := λ fs, Outcome (Ok tt) fs [Print s].

(** ** The annotation file *)

Record category : Type := { cat_id : Z; cat_name : string }.
Record image : Type := { img_id : Z; file_name : string }.
Record annotation : Type := { image_id : Z; category_id : Z }.

Record coco : Type := {
  categories : list category;
  images : list image;
  annotations : list annotation
}.

(** Iteration order of a Python set of strings, as a function of the
    distinct elements in the order they were added. *)
Record set_order : Type := SetOrder {
  list_of_set :> list string → list string;
  list_of_set_perm : ∀ s, NoDup s → list_of_set s ≡ₚ s
}.

(** [s.add(x)] on a set kept as the list of its distinct elements. *)
Definition set_add (x : string) (s : list string) : list string :=
  if bool_decide (x ∈ s) then s else s ++ [x].

(** [image_categories[image_id].add(category_name)] on the
    [defaultdict(set)]: an existing entry is updated in place, a new key
    goes to the end. *)
Fixpoint defaultdict_add (image_id : Z) (category_name : string)
    (d : list (Z * list string)) : list (Z * list string) :=
  match d with
  | [] => [(image_id, set_add category_name [])]
  | (k, s) :: d' =>
      if bool_decide (k = image_id) then (k, set_add category_name s) :: d'
      else (k, s) :: defaultdict_add image_id category_name d'
  end.

(** [{cat['id']: cat['name'] for cat in data['categories']}] *)
Definition category_map (data : coco) : gmap Z string :=
  foldl (λ m cat, <[cat_id cat := cat_name cat]> m) ∅ (categories data).

(** [{img['id']: img['file_name'] for img in data['images']}] *)
Definition image_map (data : coco) : gmap Z string :=
  foldl (λ m img, <[img_id img := file_name img]> m) ∅ (images data).

(** The loop over [data['annotations']] (lines 47-51). *)
Fixpoint annotation_loop (cm : gmap Z string) (anns : list annotation)
    (d : list (Z * list string)) : result (list (Z * list string)) :=
  match anns with
  | [] => Ok d
  | ann :: anns' =>
      match cm !! category_id ann with
      | None => Raise (KeyError (category_id ann))
      | Some category_name =>
          annotation_loop cm anns' (defaultdict_add (image_id ann) category_name d)
      end
  end.

Definition image_categories (data : coco) : result (list (Z * list string)) :=
  annotation_loop (category_map data) (annotations data) [].

Definition lift {A} (r : result A) : M A := λ fs, Outcome r fs [].

Definition dict_get (m : gmap Z string) (k : Z) : M string :=
  match m !! k with
  | Some v => ret v
  | None => raise (KeyError k)
  end.

Definition list_first (l : list string) : M string :=
  match l with
  | x :: _ => ret x
  | [] => raise IndexError
  end.

Definition newline : string := String (Ascii.ascii_of_nat 10) "".

Section Converter.

(** [json.load] on the bytes of an annotation file.  [Some data]: the
    bytes are a JSON document with the three lists [categories], [images]
    and [annotations], whose entries carry the keys the script reads,
    with integer ids and string names.  [None]: the bytes are not a JSON
    document.  A JSON document of another shape is outside the model. *)
Variable json_decode : string → option coco.

(** The set iteration order of the interpreter process running the script. *)
Variable order : set_order.

Variable output_dir : path.

(** [with open(json_path) as f: data = json.load(f)] *)
Definition json_load (json_path : path) : M coco := λ fs,
  match stat fs json_path with
  | Some (File c) =>
      match json_decode c with
      | Some data => Outcome (Ok data) fs []
      | None => Outcome (Raise ValueError) fs []
      end
  | _ => Outcome (Raise OSError) fs []
  end.

(** Body of the copy loop (lines 59-73) for one item of
    [image_categories.items()]. *)
Definition process_image (imap : gmap Z string) (img_dir : path)
    (split_name : string) (item : Z * list string) : M unit :=
  let '(image_id, cats) := item in
  filename <- dict_get imap image_id ;;
  category <- list_first (order cats) ;;
  let category_dir := path_join (path_join output_dir split_name) category in
  os_makedirs category_dir ;;;
  let src := path_join img_dir filename in
  let dst := path_join category_dir filename in
  present <- os_path_exists src ;;
  if (present : bool) then
    shutil_copy2 src dst ;;;
    print ("Copied " +:+ filename +:+ " to " +:+ split_name +:+ "/" +:+ category +:+ "/")
  else ret tt.

Definition process_split (json_path img_dir : path) (split_name : string) : M unit :=
  data <- json_load json_path ;;
  image_cats <- lift (image_categories data) ;;
  for_each image_cats (process_image (image_map data) img_dir split_name).

Definition path_str (p : path) : string := String.concat "/" p.

Definition convert_cardd_to_directory (coco_dir : path) : M unit :=
  let train_json := path_join (path_join coco_dir "annotations") "instances_train2017.json" in
  let val_json := path_join (path_join coco_dir "annotations") "instances_val2017.json" in
  let test_json := path_join (path_join coco_dir "annotations") "instances_test2017.json" in
  let train_img_dir := path_join coco_dir "train2017" in
  let val_img_dir := path_join coco_dir "val2017" in
  let test_img_dir := path_join coco_dir "test2017" in
  for_each ["train"; "val"; "test"]
    (λ split, os_makedirs (path_join output_dir split)) ;;;
  print "Processing training set..." ;;;
  process_split train_json train_img_dir "train" ;;;
  print (newline +:+ "Processing validation set...") ;;;
  process_split val_json val_img_dir "val" ;;;
  print (newline +:+ "Processing test set...") ;;;
  process_split test_json test_img_dir "test" ;;;
  print (newline +:+ "Conversion complete! Dataset saved to: " +:+ path_str output_dir).

End Converter.

(** ** Reading the model: dictionaries as association lists *)

(** [d[i]] on the association list of an insertion-ordered dict. *)
Fixpoint dict_lookup (d : list (Z * list string)) (i : Z) : option (list string) :=
  match d with
  | [] => None
  | (k, s) :: d' => if bool_decide (k = i) then Some s else dict_lookup d' i
  end.

(** Keys are distinct and no stored set is empty or has a repeated element. *)
Definition dict_wf (d : list (Z * list string)) : Prop :=
  NoDup d.*1 ∧ ∀ i s, (i, s) ∈ d → NoDup s ∧ s ≠ [].

(** ** The environment the converter is run in *)

(** The part of the file system the converter writes to: [output_dir], the
    directories above it and everything below it. *)
Definition region (out p : path) : Prop := p `prefix_of` out ∨ out `prefix_of` p.

(** Neither directory lies inside the other. *)
Definition incomparable (a b : path) : Prop := ¬ a `prefix_of` b ∧ ¬ b `prefix_of` a.

(** A node that does not get in the way of the output layout
    [output_dir/<split>/<category>/<file_name>]: no regular file at or above
    [output_dir] or where a split or category directory goes, no directory
    where an image file goes. *)
Definition node_ok (out p : path) (n : node) : Prop :=
  match n with
  | File _ => ¬ p `prefix_of` out ∧ ¬ (out `prefix_of` p ∧ (length p ≤ length out + 2)%nat)
  | Dir => ¬ (out `prefix_of` p ∧ length p = (length out + 3)%nat)
  end.

Definition layout_ok (out : path) (fs : filesys) : Prop :=
  ∀ p n, fs !! p = Some n → node_ok out p n.

(** The image folder [d] holds no directory. *)
Definition no_subdir (d : path) (fs : filesys) : Prop :=
  ∀ fn, fs !! path_join d fn ≠ Some Dir.

Definition env_ok (out : path) (dirs : list path) (fs : filesys) : Prop :=
  layout_ok out fs ∧ ∀ d, d ∈ dirs → no_subdir d fs.

(** Writes that stay in the output region and respect its layout. *)
Definition writes_ok (out : path) (W : filesys) : Prop :=
  ∀ p n, W !! p = Some n → region out p ∧ node_ok out p n.

Definition agree_outside (out : path) (fs1 fs2 : filesys) : Prop :=
  ∀ p, ¬ region out p → fs1 !! p = fs2 !! p.

(** A computation whose result, calls and writes are determined by what
    lies outside the output region: on every admissible file system with the
    same sources it returns the same result, makes the same calls and
    writes the same nodes [W]. *)
Definition replayable {A} (out : path) (dirs : list path) (m : M A) : Prop :=
  ∀ fs, env_ok out dirs fs →
    ∃ W : filesys, writes_ok out W ∧
      ∀ fs', env_ok out dirs fs' → agree_outside out fs fs' →
        m fs' = Outcome (res (m fs)) (W ∪ fs') (log (m fs)).

(** The paths a logged call may write. *)
Definition touches (e : event) (p : path) : Prop :=
  match e with
  | Makedirs q => p ∈ ancestors q
  | Copy2 src dst => p = dst ∨ p = path_join dst (basename src)
  | Print _ => False
  end.

(** Every change of the file system is accounted for by a logged call. *)
Definition tracked {A} (m : M A) : Prop :=
  ∀ fs p, fs_of (m fs) !! p ≠ fs !! p → ∃ e, e ∈ log (m fs) ∧ touches e p.

(** Nothing is deleted and no directory is replaced. *)
Definition monotone {A} (m : M A) : Prop :=
  ∀ fs p, (fs !! p = Some Dir → fs_of (m fs) !! p = Some Dir) ∧
          (is_Some (fs !! p) → is_Some (fs_of (m fs) !! p)).

(** [e] is a [shutil.copy2] call reading [src]. *)
Definition copies_from (src : path) (e : event) : bool :=
  match e with
  | Copy2 s _ => bool_decide (s = src)
  | _ => false
  end.

Global Instance node_ok_dec (out p : path) (n : node) : Decision (node_ok out p n).
Proof. destruct n; simpl; apply _. Defined.

Global Instance incomparable_dec (a b : path) : Decision (incomparable a b).
Proof. unfold incomparable. apply _. Defined.

(** The image folders of the three splits. *)
Definition image_dirs (coco_dir : path) : list path :=
  [path_join coco_dir "train2017"; path_join coco_dir "val2017";
   path_join coco_dir "test2017"].

Global Instance region_dec (out p : path) : Decision (region out p).
Proof. unfold region. apply _. Defined.

(** A confirmation line is printed only after the [shutil.copy2] call it
    reports. *)
Definition prints_follow_copies (out img_dir : path) (split_name : string)
    (lg : list event) : Prop :=
  ∀ s, Print s ∈ lg →
    ∃ fn c, s = "Copied " +:+ fn +:+ " to " +:+ split_name +:+ "/" +:+ c +:+ "/" ∧
            Copy2 (path_join img_dir fn)
                  (path_join (path_join (path_join out split_name) c) fn) ∈ lg.

(** ** Concrete inputs *)

(** Two admissible iteration orders of a set: insertion order and its
    reverse. *)
Definition insertion_order : set_order := SetOrder (λ s, s) (λ s _, reflexivity s).
Definition reverse_order : set_order := SetOrder reverse (λ s _, reverse_Permutation s).

(** One category, one image, one annotation. *)
Definition data_dent : coco := {|
  categories := [ {| cat_id := 1; cat_name := "dent" |} ];
  images := [ {| img_id := 10; file_name := "a.jpg" |} ];
  annotations := [ {| image_id := 10; category_id := 1 |} ]
|}.

(** Image 10 is annotated with two categories, image 11 with none. *)
Definition data_two : coco := {|
  categories := [ {| cat_id := 1; cat_name := "dent" |};
                  {| cat_id := 2; cat_name := "scratch" |} ];
  images := [ {| img_id := 10; file_name := "a.jpg" |};
              {| img_id := 11; file_name := "b.jpg" |} ];
  annotations := [ {| image_id := 10; category_id := 1 |};
                   {| image_id := 10; category_id := 2 |} ]
|}.

(** The annotation refers to category 7, which is not declared. *)
Definition data_bad_category : coco := {|
  categories := [ {| cat_id := 1; cat_name := "dent" |} ];
  images := [ {| img_id := 10; file_name := "a.jpg" |} ];
  annotations := [ {| image_id := 10; category_id := 7 |} ]
|}.

(** The second annotation refers to image 99, which is not listed. *)
Definition data_bad_image : coco := {|
  categories := [ {| cat_id := 1; cat_name := "dent" |} ];
  images := [ {| img_id := 10; file_name := "a.jpg" |} ];
  annotations := [ {| image_id := 10; category_id := 1 |};
                   {| image_id := 99; category_id := 1 |} ]
|}.

Definition data_empty : coco :=
  {| categories := []; images := []; annotations := [] |}.

(** A decoder for the example files: the file content names the record. *)
Definition decode_example (c : string) : option coco :=
  if bool_decide (c = "dent") then Some data_dent
  else if bool_decide (c = "two") then Some data_two
  else if bool_decide (c = "bad_category") then Some data_bad_category
  else if bool_decide (c = "bad_image") then Some data_bad_image
  else if bool_decide (c = "empty") then Some data_empty
  else None.

(** A source tree with one annotation file and the image [a.jpg]. *)
Definition fs_example (ann : string) : filesys :=
  <[ ["coco"; "annotations"; "instances_train2017.json"] := File ann ]>
  (<[ ["coco"; "train2017"; "a.jpg"] := File "JPEG-a" ]> ∅).

(** The same tree without the image file. *)
Definition fs_no_image (ann : string) : filesys :=
  <[ ["coco"; "annotations"; "instances_train2017.json"] := File ann ]> ∅.

Definition train_json : path := ["coco"; "annotations"; "instances_train2017.json"].
Definition train_img_dir : path := ["coco"; "train2017"].

(** A complete source tree: the train split is [data_two], the other two
    splits are empty. *)
Definition fs_cardd : filesys :=
  <[ ["coco"; "annotations"; "instances_train2017.json"] := File "two" ]>
  (<[ ["coco"; "annotations"; "instances_val2017.json"] := File "empty" ]>
  (<[ ["coco"; "annotations"; "instances_test2017.json"] := File "empty" ]>
  (<[ ["coco"; "train2017"; "a.jpg"] := File "JPEG-a" ]> ∅))).

(** ** Further notions *)

(** The distinct elements of [l] in the order of their first occurrence:
    the key order of a dict filled by a loop over [l]. *)
Fixpoint first_occurrences (l : list Z) : list Z :=
  match l with
  | [] => []
  | x :: l' => x :: filter (λ y, y ≠ x) (first_occurrences l')
  end.

(** Every exception the computation can raise satisfies [E]. *)
Definition raises_only {A} (E : exn → Prop) (m : M A) : Prop :=
  ∀ fs e, res (m fs) = Raise e → E e.

(** The last line the converter prints. *)
Definition completion_message (output_dir : path) : string :=
  newline +:+ "Conversion complete! Dataset saved to: " +:+ path_str output_dir.

(** Annotations of two images, interleaved; category 1 is declared twice. *)
Definition data_interleaved : coco := {|
  categories := [ {| cat_id := 1; cat_name := "dent" |};
                  {| cat_id := 2; cat_name := "scratch" |};
                  {| cat_id := 1; cat_name := "crack" |} ];
  images := [ {| img_id := 10; file_name := "a.jpg" |};
              {| img_id := 20; file_name := "b.jpg" |} ];
  annotations := [ {| image_id := 20; category_id := 2 |};
                   {| image_id := 10; category_id := 1 |};
                   {| image_id := 20; category_id := 1 |};
                   {| image_id := 10; category_id := 1 |} ]
|}.

(** Nothing is deleted, a directory stays a directory and a regular file
    stays a regular file. *)
Definition keeps_kinds {A} (m : M A) : Prop :=
  ∀ fs p n, fs !! p = Some n →
    ∃ n', fs_of (m fs) !! p = Some n' ∧ (n = Dir ↔ n' = Dir).

(** The file system once [output_dir/{train,val,test}] have been made. *)
Definition split_dirs_made (output_dir : path) (fs : filesys) : filesys :=
  makedirs_fs (path_join output_dir "test")
    (makedirs_fs (path_join output_dir "val")
       (makedirs_fs (path_join output_dir "train") fs)).

(** Lines 75-85 of [convert_cardd_to_directory]: the three splits in order,
    with their progress lines, after the split directories have been made. *)
Definition process_all_splits (json_decode : string → option coco)
    (order : set_order) (output_dir coco_dir : path) : M unit :=
  let annotations_dir := path_join coco_dir "annotations" in
  print "Processing training set..." ;;;
  process_split json_decode order output_dir
    (path_join annotations_dir "instances_train2017.json")
    (path_join coco_dir "train2017") "train" ;;;
  print (newline +:+ "Processing validation set...") ;;;
  process_split json_decode order output_dir
    (path_join annotations_dir "instances_val2017.json")
    (path_join coco_dir "val2017") "val" ;;;
  print (newline +:+ "Processing test set...") ;;;
  process_split json_decode order output_dir
    (path_join annotations_dir "instances_test2017.json")
    (path_join coco_dir "test2017") "test" ;;;
  print (newline +:+ "Conversion complete! Dataset saved to: " +:+ path_str output_dir).

(** A source tree whose three annotation files list no annotation. *)
Definition fs_no_annotations : filesys :=
  <[ ["coco"; "annotations"; "instances_train2017.json"] := File "empty" ]>
  (<[ ["coco"; "annotations"; "instances_val2017.json"] := File "empty" ]>
  (<[ ["coco"; "annotations"; "instances_test2017.json"] := File "empty" ]> ∅)).

(** ** Names that are one path component *)

(** The character [c] occurs in [s]. *)
Fixpoint has_char (c : Ascii.ascii) (s : string) : bool :=
  match s with
  | EmptyString => false
  | String a s' => bool_decide (a = c) || has_char c s'
  end.

(** A name that [os.path.join] appends as one component and that the
    operating system resolves as that one component: not empty, not [.] or
    [..], without a slash and without a NUL byte.  Only for such names does
    [path_join] describe where the script reads and writes. *)
Definition plain_name (n : string) : Prop :=
  n ≠ "" ∧ n ≠ "." ∧ n ≠ ".." ∧
  has_char (Ascii.ascii_of_nat 47) n = false ∧
  has_char (Ascii.ascii_of_nat 0) n = false.

(** Every category name and every file name of the annotation file is a
    plain name. *)
Definition plain_data (data : coco) : Prop :=
  Forall (λ cat, plain_name (cat_name cat)) (categories data) ∧
  Forall (λ img, plain_name (file_name img)) (images data).

Global Instance plain_name_dec (n : string) : Decision (plain_name n).
Proof. unfold plain_name. apply _. Defined.

Global Instance plain_data_dec (data : coco) : Decision (plain_data data).
Proof. unfold plain_data. apply _. Defined.

(** The first annotation refers to image 99, which is not listed; image 10
    is listed and annotated with two categories. *)
Definition data_dangling_first : coco := {|
  categories := [ {| cat_id := 1; cat_name := "dent" |};
                  {| cat_id := 2; cat_name := "scratch" |} ];
  images := [ {| img_id := 10; file_name := "a.jpg" |} ];
  annotations := [ {| image_id := 99; category_id := 1 |};
                   {| image_id := 10; category_id := 1 |};
                   {| image_id := 10; category_id := 2 |} ]
|}.

(** A decoder that reads [data_dangling_first] from every file. *)
Definition decode_dangling (c : string) : option coco := Some data_dangling_first.

(** The exceptions of a split whose annotation file has been loaded: a
    failing file-system call, or the lookup of an id that is missing from
    [category_map] or from [image_map]. *)
Definition split_exn (data : coco) (e : exn) : Prop :=
  e = OSError ∨
  ∃ k, e = KeyError k ∧ (category_map data !! k = None ∨ image_map data !! k = None).

(** * Properties *)

(** ** The computation monad *)

Lemma bind_Ok {A B : Type} (m : M A) (k : A → M B) fs a :
  res (m fs) = Ok a →
  bind m k fs =
    Outcome (res (k a (fs_of (m fs)))) (fs_of (k a (fs_of (m fs))))
            (log (m fs) ++ log (k a (fs_of (m fs)))).
Proof. unfold bind. destruct (m fs) as [[a'|e] fs1 l1]; simpl; congruence. Qed.

Lemma bind_Raise {A B : Type} (m : M A) (k : A → M B) fs e :
  res (m fs) = Raise e →
  bind m k fs = Outcome (Raise e) (fs_of (m fs)) (log (m fs)).
Proof. unfold bind. destruct (m fs) as [[a'|e'] fs1 l1]; simpl; congruence. Qed.

Lemma outcome_eta {A : Type} (o : outcome A) : o = Outcome (res o) (fs_of o) (log o).
Proof. by destruct o. Qed.

Lemma bind_ret {A B : Type} (a : A) (k : A → M B) fs : bind (ret a) k fs = k a fs.
Proof. unfold bind, ret. by destruct (k a fs). Qed.

Lemma bind_raise {A B : Type} (e : exn) (k : A → M B) fs :
  bind (raise e) k fs = Outcome (Raise e) fs [].
Proof. done. Qed.

Lemma bind_step {A B : Type} (m : M A) (k : A → M B) fs a fs1 l1 :
  m fs = Outcome (Ok a) fs1 l1 →
  bind m k fs = Outcome (res (k a fs1)) (fs_of (k a fs1)) (l1 ++ log (k a fs1)).
Proof. unfold bind. by intros ->. Qed.

Lemma outcome_eta_inv {A : Type} (o : outcome A) :
  Outcome (res o) (fs_of o) ([] ++ log o) = o.
Proof. by destruct o. Qed.

(** Case analysis on the first computation of a [bind]. *)
Lemma bind_cases {A B : Type} (m : M A) (k : A → M B) fs :
  (∃ a, res (m fs) = Ok a ∧
        res (bind m k fs) = res (k a (fs_of (m fs))) ∧
        fs_of (bind m k fs) = fs_of (k a (fs_of (m fs))) ∧
        log (bind m k fs) = log (m fs) ++ log (k a (fs_of (m fs)))) ∨
  (∃ e, res (m fs) = Raise e ∧
        res (bind m k fs) = Raise e ∧
        fs_of (bind m k fs) = fs_of (m fs) ∧
        log (bind m k fs) = log (m fs)).
Proof.
  destruct (res (m fs)) as [a|e] eqn:Hr.
  - left. exists a. by rewrite (bind_Ok _ _ _ _ Hr).
  - right. exists e. by rewrite (bind_Raise _ _ _ _ Hr).
Qed.

(** ** Paths *)

Lemma path_join_inj p q n k : path_join p n = path_join q k → p = q ∧ n = k.
Proof. unfold path_join. intros H. by apply app_inj_tail in H. Qed.

Lemma path_join_ne_nil p n : path_join p n ≠ [].
Proof. unfold path_join. by destruct p. Qed.

Lemma stat_lookup fs p : p ≠ [] → stat fs p = fs !! p.
Proof. by destruct p. Qed.

Lemma elem_of_ancestors q p :
  q ∈ ancestors p ↔ q ≠ [] ∧ q `prefix_of` p.
Proof.
  unfold ancestors. rewrite list_elem_of_fmap. split.
  - intros (k & -> & Hk). apply elem_of_seq in Hk. split.
    + intros Hnil. apply (f_equal length) in Hnil.
      rewrite length_take in Hnil. simpl in Hnil. lia.
    + apply prefix_take.
  - intros [Hne [r ->]]. exists (length q). split.
    + by rewrite take_app_length.
    + apply elem_of_seq. rewrite length_app. destruct q; [done|simpl; lia].
Qed.

Lemma ancestors_self p : p ≠ [] → p ∈ ancestors p.
Proof. intros. by apply elem_of_ancestors. Qed.

Lemma parent_path_join p n : parent (path_join p n) = p.
Proof.
  unfold parent, path_join. rewrite length_app. simpl.
  replace (length p + 1 - 1)%nat with (length p) by lia.
  by rewrite take_app_length.
Qed.

Lemma basename_path_join p n : basename (path_join p n) = n.
Proof. unfold basename, path_join. by rewrite last_snoc. Qed.

(** ** [os.makedirs] *)

Lemma lookup_makedirs_fs (p : path) (fs : filesys) (q : path) :
  makedirs_fs p fs !! q = if bool_decide (q ∈ ancestors p) then Some Dir else fs !! q.
Proof.
  unfold makedirs_fs. induction (ancestors p) as [|a l IH]; simpl.
  - done.
  - rewrite lookup_insert. destruct (decide (a = q)) as [->|Ha].
    + rewrite bool_decide_eq_true_2; [done|]. apply elem_of_cons; by left.
    + rewrite IH. destruct (decide (q ∈ l)) as [Hq|Hq].
      * rewrite !bool_decide_eq_true_2; [done| |done]. apply elem_of_cons; by right.
      * rewrite !bool_decide_eq_false_2; [done| |done]. rewrite elem_of_cons. by intros [?|?].
Qed.

Lemma makedirs_fs_union (p : path) (fs : filesys) : makedirs_fs p fs = makedirs_fs p ∅ ∪ fs.
Proof.
  apply map_eq. intros q. rewrite lookup_union, !lookup_makedirs_fs.
  case_bool_decide; [by destruct (fs !! q)|].
  rewrite lookup_empty. by destruct (fs !! q).
Qed.

Lemma os_makedirs_Ok (p : path) (fs : filesys) :
  res (os_makedirs p fs) = Ok tt →
  fs_of (os_makedirs p fs) = makedirs_fs p fs ∧
  ∀ q, q ∈ ancestors p → fs_of (os_makedirs p fs) !! q = Some Dir.
Proof.
  unfold os_makedirs. destruct (existsb _ _); [done|]. simpl. intros _.
  split; [done|]. intros q Hq. rewrite lookup_makedirs_fs.
  by rewrite bool_decide_eq_true_2.
Qed.

Lemma os_makedirs_log (p : path) (fs : filesys) : log (os_makedirs p fs) = [Makedirs p].
Proof. unfold os_makedirs. by destruct (existsb _ _). Qed.

(** ** Sets and the [defaultdict] *)

Lemma elem_of_set_add (x y : string) (s : list string) :
  y ∈ set_add x s ↔ y = x ∨ y ∈ s.
Proof.
  unfold set_add. case_bool_decide as Hx.
  - split; [by right|]. by intros [->|?].
  - rewrite elem_of_app, list_elem_of_singleton. tauto.
Qed.

Lemma NoDup_set_add (x : string) (s : list string) : NoDup s → NoDup (set_add x s).
Proof.
  unfold set_add. intros Hs. case_bool_decide as Hx; [done|].
  apply NoDup_app. split_and!; [done| |apply NoDup_singleton].
  intros y Hy ->%list_elem_of_singleton. done.
Qed.

Lemma set_add_ne_nil (x : string) (s : list string) : set_add x s ≠ [].
Proof.
  intros H. assert (Hx : x ∈ set_add x s) by (apply elem_of_set_add; by left).
  rewrite H in Hx. by apply elem_of_nil in Hx.
Qed.

Lemma dict_lookup_add (i j : Z) (c : string) (d : list (Z * list string)) :
  dict_lookup (defaultdict_add i c d) j =
    if bool_decide (j = i) then Some (set_add c (default [] (dict_lookup d i)))
    else dict_lookup d j.
Proof.
  induction d as [|[k s] d IH]; simpl.
  - repeat (case_bool_decide; simpl); by simplify_eq.
  - destruct (decide (k = i)) as [->|Hk].
    + rewrite !(bool_decide_eq_true_2 (i = i)) by done. simpl.
      repeat (case_bool_decide; simpl); by simplify_eq.
    + rewrite !(bool_decide_eq_false_2 (k = i)) by done. simpl.
      rewrite IH. repeat (case_bool_decide; simpl); by simplify_eq.
Qed.

Lemma keys_defaultdict_add (i : Z) (c : string) (d : list (Z * list string)) :
  (defaultdict_add i c d).*1 = if bool_decide (i ∈ d.*1) then d.*1 else d.*1 ++ [i].
Proof.
  induction d as [|[k s] d IH]; csimpl.
  - done.
  - destruct (decide (k = i)) as [->|Hk].
    + rewrite (bool_decide_eq_true_2 (i = i)) by done. csimpl.
      rewrite bool_decide_eq_true_2; [done|]. apply elem_of_cons; by left.
    + rewrite (bool_decide_eq_false_2 (k = i)) by done. csimpl. rewrite IH.
      destruct (decide (i ∈ d.*1)) as [Hi|Hi].
      * rewrite !bool_decide_eq_true_2; [done| |done]. apply elem_of_cons; by right.
      * rewrite !bool_decide_eq_false_2; [done| |done].
        rewrite elem_of_cons. intros [?|?]; congruence.
Qed.

Lemma dict_lookup_elem_of (d : list (Z * list string)) (i : Z) (s : list string) :
  dict_lookup d i = Some s → (i, s) ∈ d.
Proof.
  induction d as [|[k t] d IH]; simpl; [done|].
  case_bool_decide as Hk.
  - intros [= ->]. subst. apply elem_of_cons; by left.
  - intros H. apply elem_of_cons; right; auto.
Qed.

Lemma dict_lookup_None (d : list (Z * list string)) (i : Z) :
  dict_lookup d i = None ↔ i ∉ d.*1.
Proof.
  induction d as [|[k t] d IH]; simpl.
  - split; [|done]. intros _ ?%elem_of_nil. done.
  - rewrite not_elem_of_cons. case_bool_decide as Hk.
    + split; [done|]. intros [? _]. congruence.
    + rewrite IH. split; [|tauto]. intros ?; split; [congruence|done].
Qed.

Lemma elem_of_dict_lookup (d : list (Z * list string)) (i : Z) (s : list string) :
  NoDup d.*1 → (i, s) ∈ d → dict_lookup d i = Some s.
Proof.
  induction d as [|[k t] d IH]; simpl.
  - by intros _ ?%elem_of_nil.
  - intros [Hk Hd]%NoDup_cons [Heq|Hin]%elem_of_cons.
    + injection Heq as -> ->. by rewrite bool_decide_eq_true_2.
    + rewrite bool_decide_eq_false_2; [auto|].
      intros ->. apply Hk. apply list_elem_of_fmap. by exists (i, s).
Qed.

Lemma dict_wf_nil : dict_wf [].
Proof.
  split; [apply NoDup_nil_2|]. by intros i s ?%elem_of_nil.
Qed.

Lemma dict_wf_add (i : Z) (c : string) (d : list (Z * list string)) :
  dict_wf d → dict_wf (defaultdict_add i c d).
Proof.
  intros [Hk Hs]. assert (Hk' : NoDup (defaultdict_add i c d).*1).
  { rewrite keys_defaultdict_add. case_bool_decide as Hi; [done|].
    apply NoDup_app. split_and!; [done| |apply NoDup_singleton].
    by intros y Hy ->%list_elem_of_singleton. }
  split; [done|]. intros j s Hjs.
  apply (elem_of_dict_lookup _ _ _ Hk') in Hjs.
  rewrite dict_lookup_add in Hjs. case_bool_decide as Hj.
  - injection Hjs as <-. split; [|apply set_add_ne_nil].
    apply NoDup_set_add. destruct (dict_lookup d i) as [s0|] eqn:Hl; simpl.
    + apply dict_lookup_elem_of in Hl. by apply Hs in Hl as [? _].
    + apply NoDup_nil_2.
  - apply dict_lookup_elem_of in Hjs. by apply Hs in Hjs.
Qed.

(** ** The annotation loop *)

Lemma annotation_loop_wf cm anns d d' :
  dict_wf d → annotation_loop cm anns d = Ok d' → dict_wf d'.
Proof.
  revert d. induction anns as [|a anns IH]; simpl; intros d Hd.
  - by intros [= <-].
  - destruct (cm !! category_id a) as [c|]; [|done].
    apply IH. by apply dict_wf_add.
Qed.

Lemma annotation_loop_lookup cm anns d d' :
  annotation_loop cm anns d = Ok d' →
  ∀ i c, c ∈ default [] (dict_lookup d' i) ↔
         c ∈ default [] (dict_lookup d i) ∨
         ∃ a, a ∈ anns ∧ image_id a = i ∧ cm !! category_id a = Some c.
Proof.
  revert d. induction anns as [|a anns IH]; simpl; intros d.
  - intros [= <-] i c. split; [by left|]. intros [?|(a & []%elem_of_nil & _)]. done.
  - destruct (cm !! category_id a) as [c0|] eqn:Hc0; [|done].
    intros Hloop i c. rewrite (IH _ Hloop i c), dict_lookup_add.
    case_bool_decide as Hi; simpl.
    + subst i. rewrite elem_of_set_add. split.
      * intros [[->|?]|(b & Hb & Hbi & Hbc)].
        -- right. exists a. split_and!; [apply elem_of_cons; by left|done|done].
        -- by left.
        -- right. exists b. split_and!; [apply elem_of_cons; by right|done|done].
      * intros [?|(b & [->|Hb]%elem_of_cons & Hbi & Hbc)].
        -- left. by right.
        -- left. left. congruence.
        -- right. by exists b.
    + split.
      * intros [?|(b & Hb & Hbi & Hbc)]; [by left|].
        right. exists b. split_and!; [apply elem_of_cons; by right|done|done].
      * intros [?|(b & [->|Hb]%elem_of_cons & Hbi & Hbc)]; [by left|done|].
        right. by exists b.
Qed.

Lemma annotation_loop_keys cm anns d d' :
  annotation_loop cm anns d = Ok d' →
  ∀ i, i ∈ d'.*1 ↔ i ∈ d.*1 ∨ ∃ a, a ∈ anns ∧ image_id a = i.
Proof.
  revert d. induction anns as [|a anns IH]; simpl; intros d.
  - intros [= <-] i. split; [by left|]. intros [?|(a & []%elem_of_nil & _)]. done.
  - destruct (cm !! category_id a) as [c0|] eqn:Hc0; [|done].
    intros Hloop i. rewrite (IH _ Hloop i), keys_defaultdict_add.
    split.
    + intros [Hi|(b & Hb & Hbi)].
      * case_bool_decide; [by left|]. apply elem_of_app in Hi as [?| ->%list_elem_of_singleton].
        -- by left.
        -- right. exists a. split; [apply elem_of_cons; by left|done].
      * right. exists b. split; [apply elem_of_cons; by right|done].
    + intros [Hi|(b & [->|Hb]%elem_of_cons & Hbi)].
      * left. case_bool_decide; [done|]. apply elem_of_app; by left.
      * left. subst i. case_bool_decide; [done|].
        apply elem_of_app; right. by apply list_elem_of_singleton.
      * right. by exists b.
Qed.

Lemma annotation_loop_Raise cm anns d a :
  a ∈ anns → cm !! category_id a = None →
  ∃ k, annotation_loop cm anns d = Raise (KeyError k) ∧ cm !! k = None.
Proof.
  revert d. induction anns as [|b anns IH]; simpl; intros d.
  - by intros ?%elem_of_nil.
  - intros Hin Ha. destruct (cm !! category_id b) as [c|] eqn:Hb.
    + apply elem_of_cons in Hin as [->|Hin]; [congruence|]. by apply IH.
    + by exists (category_id b).
Qed.

Lemma annotation_loop_Ok cm anns d :
  (∀ a, a ∈ anns → is_Some (cm !! category_id a)) →
  ∃ d', annotation_loop cm anns d = Ok d'.
Proof.
  revert d. induction anns as [|b anns IH]; simpl; intros d Hall.
  - by exists d.
  - destruct (Hall b) as [c ->]; [apply elem_of_cons; by left|].
    apply IH. intros a Ha. apply Hall. apply elem_of_cons; by right.
Qed.

Lemma annotation_loop_Ok_inv cm anns d d' a :
  annotation_loop cm anns d = Ok d' → a ∈ anns → is_Some (cm !! category_id a).
Proof.
  intros Hloop Ha. destruct (cm !! category_id a) eqn:Hc; [done|].
  destruct (annotation_loop_Raise cm anns d a Ha Hc) as (k & Hk & _). congruence.
Qed.

Lemma annotation_loop_Ok_or_KeyError cm anns d :
  (∃ d', annotation_loop cm anns d = Ok d') ∨
  (∃ k, annotation_loop cm anns d = Raise (KeyError k) ∧ cm !! k = None).
Proof.
  revert d. induction anns as [|b anns IH]; simpl; intros d.
  - left. by exists d.
  - destruct (cm !! category_id b) as [c|] eqn:Hb; [apply IH|].
    right. by exists (category_id b).
Qed.

(** What [image_categories] holds once the annotation loop has finished. *)

Lemma image_categories_wf data ic : image_categories data = Ok ic → dict_wf ic.
Proof. apply annotation_loop_wf, dict_wf_nil. Qed.

Lemma image_categories_sound data ic i s c :
  image_categories data = Ok ic → (i, s) ∈ ic → c ∈ s →
  ∃ a, a ∈ annotations data ∧ image_id a = i ∧
       category_map data !! category_id a = Some c.
Proof.
  intros Hic His Hc.
  pose proof (image_categories_wf _ _ Hic) as [Hk _].
  pose proof (annotation_loop_lookup _ _ _ _ Hic i c) as Hl.
  rewrite (elem_of_dict_lookup _ _ _ Hk His) in Hl. simpl in Hl.
  apply Hl in Hc as [[]%elem_of_nil|?]. done.
Qed.

Lemma image_categories_complete data ic a :
  image_categories data = Ok ic → a ∈ annotations data →
  ∃ s c, (image_id a, s) ∈ ic ∧ category_map data !! category_id a = Some c ∧ c ∈ s.
Proof.
  intros Hic Ha.
  destruct (annotation_loop_Ok_inv _ _ _ _ _ Hic Ha) as [c Hc].
  pose proof (annotation_loop_lookup _ _ _ _ Hic (image_id a) c) as Hl.
  destruct (dict_lookup ic (image_id a)) as [s|] eqn:Hs; simpl in Hl.
  - exists s, c. split_and!; [by apply dict_lookup_elem_of|done|].
    apply Hl. right. by exists a.
  - exfalso. assert (H : c ∈ @nil string); [|by apply elem_of_nil in H].
    apply Hl. right. by exists a.
Qed.

Lemma image_categories_annotated data ic i s :
  image_categories data = Ok ic → (i, s) ∈ ic →
  ∃ a, a ∈ annotations data ∧ image_id a = i.
Proof.
  intros Hic His.
  pose proof (annotation_loop_keys _ _ _ _ Hic i) as Hk.
  destruct Hk as [Hk _]. destruct Hk as [[]%elem_of_nil|?]; [|done].
  apply list_elem_of_fmap. by exists (i, s).
Qed.

(** ** Call traces *)

Lemma log_bind_elem {A B : Type} (m : M A) (k : A → M B) fs e :
  e ∈ log (bind m k fs) →
  e ∈ log (m fs) ∨ ∃ a, res (m fs) = Ok a ∧ e ∈ log (k a (fs_of (m fs))).
Proof.
  destruct (bind_cases m k fs) as [(a & Ha & _ & _ & ->)|(e' & _ & _ & _ & ->)].
  - intros [?|?]%elem_of_app; [by left|right; by exists a].
  - by left.
Qed.

Lemma for_each_log_elem {A : Type} (l : list A) (body : A → M unit) fs e :
  e ∈ log (for_each l body fs) → ∃ x fs', x ∈ l ∧ e ∈ log (body x fs').
Proof.
  revert fs. induction l as [|x l IH]; simpl; intros fs.
  - by intros ?%elem_of_nil.
  - intros [He|(_ & _ & He)]%log_bind_elem.
    + exists x, fs. split; [apply elem_of_cons; by left|done].
    + destruct (IH _ He) as (y & fs' & Hy & Hlog).
      exists y, fs'. split; [apply elem_of_cons; by right|done].
Qed.

Lemma shutil_copy2_log (src dst : path) (fs : filesys) :
  log (shutil_copy2 src dst fs) = [Copy2 src dst].
Proof.
  unfold shutil_copy2. destruct (stat fs src) as [[|c]|]; try done.
  simpl. repeat (case_bool_decide || case_match); done.
Qed.

Lemma image_map_lookup data i fn :
  image_map data !! i = Some fn →
  ∃ img, img ∈ images data ∧ img_id img = i ∧ file_name img = fn.
Proof.
  unfold image_map.
  assert (H : ∀ l (m : gmap Z string),
    foldl (λ m img, <[img_id img := file_name img]> m) m l !! i = Some fn →
    m !! i = Some fn ∨ ∃ img, img ∈ l ∧ img_id img = i ∧ file_name img = fn).
  { induction l as [|x l IH]; simpl; intros m Hm; [by left|].
    destruct (IH _ Hm) as [Hx|(img & Himg & ?)].
    - rewrite lookup_insert in Hx. case_decide as Hi.
      + right. exists x. split; [apply elem_of_cons; by left|]. split; congruence.
      + by left.
    - right. exists img. split; [apply elem_of_cons; by right|done]. }
  intros Hl. destruct (H _ _ Hl) as [Hm|?]; [|done].
  by rewrite lookup_empty in Hm.
Qed.

Lemma head_set_order (order : set_order) (s : list string) (c : string) :
  NoDup s → head (order s) = Some c → c ∈ s.
Proof.
  intros Hs Hh. rewrite <- (list_of_set_perm order s Hs).
  destruct (order s) as [|x r]; simplify_eq/=. apply elem_of_cons; by left.
Qed.

Lemma set_order_nonempty (order : set_order) (s : list string) :
  NoDup s → s ≠ [] → ∃ c r, order s = c :: r.
Proof.
  intros Hs Hne. destruct (order s) as [|c r] eqn:Ho; [|by eauto].
  exfalso. apply Hne. apply Permutation_nil_r.
  by rewrite <- (list_of_set_perm order s Hs), Ho.
Qed.

Section Traces.

Variable json_decode : string → option coco.
Variable order : set_order.
Variable output_dir : path.

Lemma json_load_log json_path fs : log (json_load json_decode json_path fs) = [].
Proof.
  unfold json_load. destruct (stat fs json_path) as [[|c]|]; try done.
  by destruct (json_decode c).
Qed.

Lemma json_load_fs json_path fs : fs_of (json_load json_decode json_path fs) = fs.
Proof.
  unfold json_load. destruct (stat fs json_path) as [[|c]|]; try done.
  by destruct (json_decode c).
Qed.

Lemma json_load_Ok json_path fs data :
  res (json_load json_decode json_path fs) = Ok data ↔
  ∃ c, stat fs json_path = Some (File c) ∧ json_decode c = Some data.
Proof.
  unfold json_load. destruct (stat fs json_path) as [[|c]|]; simpl.
  - split; [done|]. by intros (c & ? & _).
  - destruct (json_decode c) as [d|] eqn:Hd; simpl.
    + split; [intros [= <-]; by exists c|]. intros (c' & [= <-] & ?). congruence.
    + split; [done|]. intros (c' & [= <-] & ?). congruence.
  - split; [done|]. by intros (c & ? & _).
Qed.

(** The calls one iteration of the copy loop can make. *)
Lemma process_image_log_inv imap img_dir split_name i cats fs e :
  e ∈ log (process_image order output_dir imap img_dir split_name (i, cats) fs) →
  ∃ fn c, imap !! i = Some fn ∧ head (order cats) = Some c ∧
    let category_dir := path_join (path_join output_dir split_name) c in
    (e = Makedirs category_dir ∨
     e = Copy2 (path_join img_dir fn) (path_join category_dir fn) ∨
     e = Print ("Copied " +:+ fn +:+ " to " +:+ split_name +:+ "/" +:+ c +:+ "/")).
Proof.
  unfold process_image, dict_get, list_first.
  destruct (imap !! i) as [fn|]; [|by intros [[]%elem_of_nil|(? & ? & _)]%log_bind_elem].
  intros [[]%elem_of_nil|(? & [= <-] & He)]%log_bind_elem.
  destruct (order cats) as [|c r];
    [by apply log_bind_elem in He as [[]%elem_of_nil|(? & ? & _)]|].
  apply log_bind_elem in He as [[]%elem_of_nil|(? & [= <-] & He)].
  exists fn, c. split_and!; [done|done|]. simpl.
  apply log_bind_elem in He as [He|(_ & _ & He)].
  { rewrite os_makedirs_log in He. apply list_elem_of_singleton in He. by left. }
  apply log_bind_elem in He as [[]%elem_of_nil|(present & _ & He)].
  destruct present; [|by apply elem_of_nil in He].
  apply log_bind_elem in He as [He|(_ & _ & He)].
  - rewrite shutil_copy2_log in He. apply list_elem_of_singleton in He. right; by left.
  - apply list_elem_of_singleton in He. right; by right.
Qed.

(** Every call of the copy loop is made on behalf of one item of
    [image_categories]. *)
Lemma process_split_log_inv json_path img_dir split_name fs e :
  e ∈ log (process_split json_decode order output_dir json_path img_dir split_name fs) →
  ∃ content data ic i cats fn c,
    stat fs json_path = Some (File content) ∧ json_decode content = Some data ∧
    image_categories data = Ok ic ∧ (i, cats) ∈ ic ∧
    image_map data !! i = Some fn ∧ head (order cats) = Some c ∧
    let category_dir := path_join (path_join output_dir split_name) c in
    (e = Makedirs category_dir ∨
     e = Copy2 (path_join img_dir fn) (path_join category_dir fn) ∨
     e = Print ("Copied " +:+ fn +:+ " to " +:+ split_name +:+ "/" +:+ c +:+ "/")).
Proof.
  unfold process_split. intros [He|(data & Hdata & He)]%log_bind_elem.
  { rewrite json_load_log in He. by apply elem_of_nil in He. }
  apply json_load_Ok in Hdata as (content & Hstat & Hdec).
  apply log_bind_elem in He as [[]%elem_of_nil|(ic & Hic & He)].
  simpl in Hic. apply for_each_log_elem in He as ([i cats] & fs' & Hin & He).
  apply process_image_log_inv in He as (fn & c & Hfn & Hc & He).
  exists content, data, ic, i, cats, fn, c. by split_and!.
Qed.

End Traces.

(** Every [shutil.copy2] call of a split, traced back to the annotation file. *)
Lemma copy2_call_inv json_decode (order : set_order) output_dir
    json_path img_dir split_name fs src dst :
  Copy2 src dst ∈
    log (process_split json_decode order output_dir json_path img_dir split_name fs) →
  ∃ content data ic i cats fn c,
    stat fs json_path = Some (File content) ∧ json_decode content = Some data ∧
    image_categories data = Ok ic ∧ (i, cats) ∈ ic ∧
    image_map data !! i = Some fn ∧
    (∃ img, img ∈ images data ∧ img_id img = i ∧ file_name img = fn) ∧
    head (order cats) = Some c ∧ c ∈ cats ∧
    (∃ a, a ∈ annotations data ∧ image_id a = i ∧
          category_map data !! category_id a = Some c) ∧
    src = path_join img_dir fn ∧
    dst = path_join (path_join (path_join output_dir split_name) c) fn.
Proof.
  intros He.
  apply process_split_log_inv in He
    as (content & data & ic & i & cats & fn & c & Hst & Hdec & Hic & Hin & Hfn & Hc & He).
  simpl in He. destruct He as [He|[He|He]]; [done| |done]. injection He as -> ->.
  pose proof (image_categories_wf _ _ Hic) as [_ Hwf].
  destruct (Hwf _ _ Hin) as [Hnd _].
  pose proof (head_set_order _ _ _ Hnd Hc) as Hcin.
  exists content, data, ic, i, cats, fn, c. split_and!; try done.
  - by apply image_map_lookup.
  - by eapply image_categories_sound.
Qed.

(** ** The output region *)

Lemma region_under (out rel : path) : region out (out ++ rel).
Proof. right. by apply prefix_app_r. Qed.

Lemma region_ancestors (out rel q : path) :
  q ∈ ancestors (out ++ rel) → region out q.
Proof.
  intros [_ Hq]%elem_of_ancestors.
  destruct (prefix_weak_total q out (out ++ rel)) as [?|?];
    [done|by apply prefix_app_r|by left|by right].
Qed.

Lemma incomparable_not_region (d out : path) (fn : string) :
  incomparable d out → ¬ region out (path_join d fn).
Proof.
  unfold path_join. intros [Hdo Hod] [H|H].
  - apply Hdo. by eapply prefix_app_l.
  - destruct H as [r Hr]. destruct (decide (r = [])) as [->|Hne].
    + rewrite app_nil_r in Hr. apply Hdo. exists [fn]. done.
    + destruct (exists_last Hne) as (r' & x & ->).
      rewrite app_assoc in Hr. apply app_inj_tail in Hr as [-> _].
      apply Hod. by exists r'.
Qed.

Lemma ancestors_length (p q : path) : q ∈ ancestors p → (length q ≤ length p)%nat.
Proof. intros [_ ?]%elem_of_ancestors. by apply prefix_length. Qed.

Lemma path_join3_length (out : path) (a b c : string) :
  length (path_join (path_join (path_join out a) b) c) = (length out + 3)%nat.
Proof. unfold path_join. rewrite !length_app. simpl. lia. Qed.

Lemma path_join2_length (out : path) (a b : string) :
  length (path_join (path_join out a) b) = (length out + 2)%nat.
Proof. unfold path_join. rewrite !length_app. simpl. lia. Qed.

Lemma path_join1_length (out : path) (a : string) :
  length (path_join out a) = (length out + 1)%nat.
Proof. unfold path_join. rewrite !length_app. simpl. lia. Qed.

Lemma path_join_prefix (out : path) (a : string) : out `prefix_of` path_join out a.
Proof. by apply prefix_app_r. Qed.

Lemma path_join2_prefix (out : path) (a b : string) :
  out `prefix_of` path_join (path_join out a) b.
Proof. unfold path_join. rewrite <- app_assoc. by apply prefix_app_r. Qed.

Lemma path_join3_prefix (out : path) (a b c : string) :
  out `prefix_of` path_join (path_join (path_join out a) b) c.
Proof. unfold path_join. rewrite <- !app_assoc. by apply prefix_app_r. Qed.

(** ** Library calls in an admissible environment *)

Lemma layout_no_file_above (out rel : path) (fs : filesys) :
  layout_ok out fs → (length rel ≤ 2)%nat →
  existsb (is_file fs) (ancestors (out ++ rel)) = false.
Proof.
  intros Hlay Hrel. apply not_true_is_false. intros Hex.
  apply existsb_exists in Hex as (q & Hq%list_elem_of_In & Hfile).
  pose proof (region_ancestors _ _ _ Hq) as Hreg.
  pose proof (ancestors_length _ _ Hq) as Hlen. rewrite length_app in Hlen.
  apply elem_of_ancestors in Hq as [Hne _].
  unfold is_file in Hfile. rewrite stat_lookup in Hfile by done.
  destruct (fs !! q) as [[|c]|] eqn:Hl; try done.
  destruct (Hlay _ _ Hl) as [H1 H2]. destruct Hreg as [?|?]; [done|].
  apply H2. split; [done|lia].
Qed.

Lemma os_makedirs_env (out rel : path) (fs : filesys) :
  layout_ok out fs → (length rel ≤ 2)%nat →
  os_makedirs (out ++ rel) fs =
    Outcome (Ok tt) (makedirs_fs (out ++ rel) fs) [Makedirs (out ++ rel)].
Proof.
  intros Hlay Hrel. unfold os_makedirs.
  by rewrite layout_no_file_above.
Qed.

Lemma writes_ok_makedirs (out rel : path) :
  (length rel ≤ 2)%nat → writes_ok out (makedirs_fs (out ++ rel) ∅).
Proof.
  intros Hrel p n. rewrite lookup_makedirs_fs. case_bool_decide as Hp; [|done].
  intros [= <-]. split; [by eapply region_ancestors|].
  apply ancestors_length in Hp. rewrite length_app in Hp.
  simpl. intros [_ ?]. lia.
Qed.

Lemma writes_ok_empty (out : path) : writes_ok out ∅.
Proof. intros p n. by rewrite lookup_empty. Qed.

Lemma writes_ok_union (out : path) (W1 W2 : filesys) :
  writes_ok out W1 → writes_ok out W2 → writes_ok out (W1 ∪ W2).
Proof.
  intros H1 H2 p n [?|[_ ?]]%lookup_union_Some_raw; [by apply H1|by apply H2].
Qed.

Lemma writes_ok_insert_file (out : path) (a b c content : string) (W : filesys) :
  writes_ok out W →
  writes_ok out (<[path_join (path_join (path_join out a) b) c := File content]> W).
Proof.
  intros HW p n. rewrite lookup_insert. case_decide as Hp; [|apply HW].
  intros [= <-]. subst p. split; [right; apply path_join3_prefix|].
  simpl. rewrite path_join3_length. split.
  - intros H%prefix_length. rewrite path_join3_length in H. lia.
  - intros [_ ?]. lia.
Qed.

Lemma env_ok_union (out : path) (dirs : list path) (W fs : filesys) :
  (∀ d, d ∈ dirs → incomparable d out) →
  writes_ok out W → env_ok out dirs fs → env_ok out dirs (W ∪ fs).
Proof.
  intros Hdirs HW [Hlay Hsub]. split.
  - intros p n [?|[_ ?]]%lookup_union_Some_raw; [by apply HW|by apply Hlay].
  - intros d Hd fn [Hl|[_ Hl]]%lookup_union_Some_raw; [|by apply (Hsub d Hd fn)].
    apply HW in Hl as [Hreg _].
    by apply (incomparable_not_region d out fn (Hdirs d Hd)).
Qed.

Lemma agree_outside_union (out : path) (W fs fs' : filesys) :
  writes_ok out W → agree_outside out fs fs' →
  agree_outside out (W ∪ fs) (W ∪ fs').
Proof.
  intros HW Hag p Hp. rewrite !lookup_union, (Hag p Hp). done.
Qed.

Lemma agree_outside_refl (out : path) (fs : filesys) : agree_outside out fs fs.
Proof. by intros p _. Qed.

Lemma agree_outside_writes (out : path) (W fs : filesys) :
  writes_ok out W → agree_outside out fs (W ∪ fs).
Proof.
  intros HW p Hp. rewrite lookup_union.
  destruct (W !! p) as [n|] eqn:Hl; [|by destruct (fs !! p)].
  by apply HW in Hl as [? _].
Qed.

Section Environment.

Variable order : set_order.
Variable out : path.
Variable dirs : list path.
Hypothesis dirs_apart : ∀ d, d ∈ dirs → incomparable d out.

(** One iteration of the copy loop, when nothing is in the way. *)
Lemma process_image_env imap img_dir split_name i cats fn c r fs :
  env_ok out dirs fs → img_dir ∈ dirs →
  imap !! i = Some fn → order cats = c :: r →
  let category_dir := path_join (path_join out split_name) c in
  process_image order out imap img_dir split_name (i, cats) fs =
    match fs !! path_join img_dir fn with
    | Some (File content) =>
        Outcome (Ok tt)
          (<[path_join category_dir fn := File content]> (makedirs_fs category_dir fs))
          [Makedirs category_dir;
           Copy2 (path_join img_dir fn) (path_join category_dir fn);
           Print ("Copied " +:+ fn +:+ " to " +:+ split_name +:+ "/" +:+ c +:+ "/")]
    | _ => Outcome (Ok tt) (makedirs_fs category_dir fs) [Makedirs category_dir]
    end.
Proof.
  intros [Hlay Hsub] Hdir Hfn Hc category_dir.
  pose proof (dirs_apart _ Hdir) as Hinc.
  set (src := path_join img_dir fn). set (dst := path_join category_dir fn).
  assert (Hcd : category_dir = out ++ [split_name; c]).
  { unfold category_dir, path_join. by rewrite <- app_assoc. }
  assert (Hmk : os_makedirs category_dir fs =
            Outcome (Ok tt) (makedirs_fs category_dir fs) [Makedirs category_dir]).
  { rewrite Hcd. apply os_makedirs_env; [done|simpl; lia]. }
  assert (Hsrc_reg : ¬ region out src) by by apply incomparable_not_region.
  assert (Hsrc : makedirs_fs category_dir fs !! src = fs !! src).
  { rewrite lookup_makedirs_fs. rewrite bool_decide_eq_false_2; [done|].
    intros Hin. apply Hsrc_reg. rewrite Hcd in Hin. by eapply region_ancestors. }
  assert (Hsrc_ne : src ≠ []) by apply path_join_ne_nil.
  assert (Hdst_ne : dst ≠ []) by apply path_join_ne_nil.
  assert (Hdst_len : length dst = (length out + 3)%nat) by apply path_join3_length.
  assert (Hdst : is_dir (makedirs_fs category_dir fs) dst = false).
  { unfold is_dir. rewrite stat_lookup by done. rewrite lookup_makedirs_fs.
    rewrite bool_decide_eq_false_2.
    - destruct (fs !! dst) as [[|?]|] eqn:Hl; try done.
      exfalso. apply (Hlay _ _ Hl). split; [apply path_join3_prefix|done].
    - intros Hin%ancestors_length. unfold category_dir in Hin.
      rewrite path_join2_length in Hin. lia. }
  assert (Hpar : is_dir (makedirs_fs category_dir fs) category_dir = true).
  { unfold is_dir. rewrite stat_lookup by apply path_join_ne_nil.
    rewrite lookup_makedirs_fs, bool_decide_eq_true_2; [done|].
    apply ancestors_self, path_join_ne_nil. }
  unfold process_image, dict_get, list_first. rewrite Hfn, Hc.
  rewrite !bind_ret. fold category_dir. fold src. fold dst.
  rewrite (bind_step _ _ _ _ _ _ Hmk).
  assert (Hex : os_path_exists src (makedirs_fs category_dir fs) =
            Outcome (Ok (bool_decide (is_Some (fs !! src))))
                    (makedirs_fs category_dir fs) []).
  { unfold os_path_exists. by rewrite (stat_lookup _ src Hsrc_ne), Hsrc. }
  rewrite (bind_step _ _ _ _ _ _ Hex).
  destruct (fs !! src) as [[|content]|] eqn:Hl.
  - exfalso. by apply (Hsub _ Hdir fn).
  - rewrite bool_decide_eq_true_2 by by eexists.
    assert (Hcp : shutil_copy2 src dst (makedirs_fs category_dir fs) =
              Outcome (Ok tt) (<[dst := File content]> (makedirs_fs category_dir fs))
                      [Copy2 src dst]).
    { unfold shutil_copy2. rewrite (stat_lookup _ src Hsrc_ne), Hsrc, Hdst.
      rewrite bool_decide_eq_false_2.
      - rewrite Hdst. unfold dst at 1. by rewrite parent_path_join, Hpar.
      - intros Heq. apply Hsrc_reg. rewrite <- Heq. right. apply path_join3_prefix. }
    by rewrite (bind_step _ _ _ _ _ _ Hcp).
  - rewrite bool_decide_eq_false_2; [done|]. by intros [? ?].
Qed.

(** *** Replayable computations *)

Lemma replayable_pure {A : Type} (r : result A) : replayable out dirs (lift r).
Proof.
  intros fs _. exists ∅. split; [apply writes_ok_empty|].
  intros fs' _ _. unfold lift. simpl. by rewrite (left_id_L ∅ (∪)).
Qed.

Lemma replayable_ret {A : Type} (a : A) : replayable out dirs (ret a).
Proof. apply (replayable_pure (Ok a)). Qed.

Lemma replayable_raise {A : Type} (e : exn) : replayable out dirs (@raise A e).
Proof. apply (replayable_pure (Raise e)). Qed.

Lemma replayable_print (s : string) : replayable out dirs (print s).
Proof.
  intros fs _. exists ∅. split; [apply writes_ok_empty|].
  intros fs' _ _. unfold print. simpl. by rewrite (left_id_L ∅ (∪)).
Qed.

Lemma replayable_self {A : Type} (m : M A) (W : filesys) fs :
  env_ok out dirs fs →
  (∀ fs', env_ok out dirs fs' → agree_outside out fs fs' →
          m fs' = Outcome (res (m fs)) (W ∪ fs') (log (m fs))) →
  fs_of (m fs) = W ∪ fs.
Proof.
  intros Henv HW. by rewrite (HW fs Henv (agree_outside_refl out fs)) at 1.
Qed.

Lemma replayable_bind {A B : Type} (m : M A) (k : A → M B) :
  replayable out dirs m → (∀ a, replayable out dirs (k a)) →
  replayable out dirs (bind m k).
Proof.
  intros Hm Hk fs Henv. destruct (Hm fs Henv) as (W1 & HW1 & Hrep1).
  pose proof (replayable_self m W1 fs Henv Hrep1) as Hfs1.
  destruct (res (m fs)) as [a|e] eqn:Hres.
  - assert (Henv1 : env_ok out dirs (W1 ∪ fs)) by by apply env_ok_union.
    destruct (Hk a _ Henv1) as (W2 & HW2 & Hrep2).
    exists (W2 ∪ W1). split; [by apply writes_ok_union|].
    intros fs' Henv' Hag.
    rewrite (bind_Ok m k fs a Hres), Hfs1. simpl.
    unfold bind. rewrite (Hrep1 fs' Henv' Hag). simpl.
    rewrite (Hrep2 (W1 ∪ fs')).
    + simpl. by rewrite (assoc_L (∪)).
    + by apply env_ok_union.
    + by apply agree_outside_union.
  - exists W1. split; [done|]. intros fs' Henv' Hag.
    rewrite (bind_Raise m k fs e Hres). simpl.
    unfold bind. by rewrite (Hrep1 fs' Henv' Hag).
Qed.

Lemma replayable_for_each {A : Type} (l : list A) (body : A → M unit) :
  (∀ x, x ∈ l → replayable out dirs (body x)) →
  replayable out dirs (for_each l body).
Proof.
  induction l as [|x l IH]; simpl; intros Hbody.
  - apply replayable_ret.
  - apply replayable_bind.
    + apply Hbody. apply elem_of_cons; by left.
    + intros _. apply IH. intros y Hy. apply Hbody. apply elem_of_cons; by right.
Qed.

Lemma replayable_makedirs (rel : path) :
  (length rel ≤ 2)%nat → replayable out dirs (os_makedirs (out ++ rel)).
Proof.
  intros Hrel fs [Hlay _]. exists (makedirs_fs (out ++ rel) ∅).
  split; [by apply writes_ok_makedirs|]. intros fs' [Hlay' _] _.
  rewrite !os_makedirs_env by done. simpl. by rewrite makedirs_fs_union.
Qed.

Lemma replayable_json_load json_decode (json_path : path) :
  ¬ region out json_path → replayable out dirs (json_load json_decode json_path).
Proof.
  intros Hreg fs _. exists ∅. split; [apply writes_ok_empty|].
  intros fs' _ Hag. rewrite (left_id_L ∅ (∪)).
  assert (Hne : json_path ≠ []).
  { intros ->. apply Hreg. left. apply prefix_nil. }
  unfold json_load. rewrite !stat_lookup by done. rewrite <- (Hag _ Hreg).
  destruct (fs !! json_path) as [[|c]|]; try done. by destruct (json_decode c).
Qed.

Lemma replayable_process_image imap img_dir split_name item :
  img_dir ∈ dirs →
  replayable out dirs (process_image order out imap img_dir split_name item).
Proof.
  intros Hdir. destruct item as [i cats]. intros fs Henv.
  destruct (imap !! i) as [fn|] eqn:Hfn; cycle 1.
  { exists ∅. split; [apply writes_ok_empty|]. intros fs' _ _.
    unfold process_image, dict_get. rewrite Hfn, !bind_raise. simpl.
    by rewrite (left_id_L ∅ (∪)). }
  destruct (order cats) as [|c r] eqn:Hc.
  { exists ∅. split; [apply writes_ok_empty|]. intros fs' _ _.
    unfold process_image, dict_get, list_first.
    rewrite Hfn, Hc, !bind_ret, !bind_raise. simpl.
    by rewrite (left_id_L ∅ (∪)). }
  set (category_dir := path_join (path_join out split_name) c).
  assert (Hcd : category_dir = out ++ [split_name; c]).
  { unfold category_dir, path_join. by rewrite <- app_assoc. }
  assert (Hmk : writes_ok out (makedirs_fs category_dir ∅)).
  { rewrite Hcd. apply writes_ok_makedirs. simpl; lia. }
  assert (Hreg : ¬ region out (path_join img_dir fn)).
  { apply incomparable_not_region. by apply dirs_apart. }
  rewrite (process_image_env imap img_dir split_name i cats fn c r fs Henv Hdir Hfn Hc).
  fold category_dir.
  destruct (fs !! path_join img_dir fn) as [[|content]|] eqn:Hsrc.
  - exists (makedirs_fs category_dir ∅). split; [done|]. intros fs' Henv' Hag.
    rewrite (process_image_env imap img_dir split_name i cats fn c r fs' Henv' Hdir Hfn Hc).
    fold category_dir. rewrite <- (Hag _ Hreg), Hsrc. simpl.
    by rewrite makedirs_fs_union.
  - exists (<[path_join category_dir fn := File content]> (makedirs_fs category_dir ∅)).
    split; [by apply writes_ok_insert_file|]. intros fs' Henv' Hag.
    rewrite (process_image_env imap img_dir split_name i cats fn c r fs' Henv' Hdir Hfn Hc).
    fold category_dir. rewrite <- (Hag _ Hreg), Hsrc. simpl.
    by rewrite makedirs_fs_union, insert_union_l.
  - exists (makedirs_fs category_dir ∅). split; [done|]. intros fs' Henv' Hag.
    rewrite (process_image_env imap img_dir split_name i cats fn c r fs' Henv' Hdir Hfn Hc).
    fold category_dir. rewrite <- (Hag _ Hreg), Hsrc. simpl.
    by rewrite makedirs_fs_union.
Qed.

Lemma replayable_process_split json_decode json_path img_dir split_name :
  ¬ region out json_path → img_dir ∈ dirs →
  replayable out dirs
    (process_split json_decode order out json_path img_dir split_name).
Proof.
  intros Hreg Hdir. unfold process_split.
  apply replayable_bind; [by apply replayable_json_load|]. intros data.
  apply replayable_bind; [apply replayable_pure|]. intros ic.
  apply replayable_for_each. intros item _. by apply replayable_process_image.
Qed.

(** Running a replayable computation again on the file system it left
    behind changes nothing: same result, same calls, same file system. *)
Lemma replay_idempotent {A : Type} (m : M A) fs :
  replayable out dirs m → env_ok out dirs fs → m (fs_of (m fs)) = m fs.
Proof.
  intros Hm Henv. destruct (Hm fs Henv) as (W & HW & Hrep).
  pose proof (replayable_self m W fs Henv Hrep) as Hfs. rewrite Hfs.
  rewrite (Hrep (W ∪ fs)).
  - rewrite (assoc_L (∪)), (idemp_L (∪) W), <- Hfs. by destruct (m fs).
  - by apply env_ok_union.
  - by apply agree_outside_writes.
Qed.

Lemma replayable_env_ok {A : Type} (m : M A) fs :
  replayable out dirs m → env_ok out dirs fs → env_ok out dirs (fs_of (m fs)).
Proof.
  intros Hm Henv. destruct (Hm fs Henv) as (W & HW & Hrep).
  rewrite (replayable_self m W fs Henv Hrep). by apply env_ok_union.
Qed.

Lemma replayable_agree {A : Type} (m : M A) fs :
  replayable out dirs m → env_ok out dirs fs → agree_outside out fs (fs_of (m fs)).
Proof.
  intros Hm Henv. destruct (Hm fs Henv) as (W & HW & Hrep).
  rewrite (replayable_self m W fs Henv Hrep). by apply agree_outside_writes.
Qed.

End Environment.

(** ** Loops *)

Lemma bind_assoc {A B C : Type} (m : M A) (k : A → M B) (h : B → M C) fs :
  bind (bind m k) h fs = bind m (λ a, bind (k a) h) fs.
Proof.
  unfold bind. destruct (m fs) as [[a|e] fs1 l1]; [|done]. simpl.
  destruct (k a fs1) as [[b|e] fs2 l2]; [|done]. simpl.
  by rewrite (assoc_L (++)).
Qed.

Lemma bind_ext {A B : Type} (m : M A) (k k' : A → M B) fs :
  (∀ a fs', k a fs' = k' a fs') → bind m k fs = bind m k' fs.
Proof.
  intros Hk. unfold bind. destruct (m fs) as [[a|e] fs1 l1]; [|done].
  by rewrite Hk.
Qed.

Lemma for_each_app {A : Type} (l1 l2 : list A) (body : A → M unit) fs :
  for_each (l1 ++ l2) body fs = bind (for_each l1 body) (λ _, for_each l2 body) fs.
Proof.
  revert fs. induction l1 as [|x l1 IH]; intros fs; simpl.
  - by rewrite bind_ret.
  - rewrite bind_assoc. apply bind_ext. intros _ fs'. apply IH.
Qed.

(** An invariant of the file system, a property of the log closed under
    concatenation and a set of admissible exceptions carry over from the
    loop body to the loop. *)
Lemma for_each_inv {A : Type} (P : filesys → Prop) (Φ : list event → Prop)
    (E : exn → Prop) (l : list A) (body : A → M unit) :
  Φ [] → (∀ l1 l2, Φ l1 → Φ l2 → Φ (l1 ++ l2)) →
  (∀ x fs, x ∈ l → P fs →
     P (fs_of (body x fs)) ∧ Φ (log (body x fs)) ∧
     (res (body x fs) = Ok tt ∨ ∃ e, res (body x fs) = Raise e ∧ E e)) →
  ∀ fs, P fs →
    P (fs_of (for_each l body fs)) ∧ Φ (log (for_each l body fs)) ∧
    (res (for_each l body fs) = Ok tt ∨ ∃ e, res (for_each l body fs) = Raise e ∧ E e).
Proof.
  intros Hnil Happ. induction l as [|x l IH]; intros Hbody fs HP; simpl.
  - split_and!; [done|done|by left].
  - destruct (Hbody x fs) as (HP1 & HΦ1 & Hres1); [apply elem_of_cons; by left|done|].
    destruct (bind_cases (body x) (λ _, for_each l body) fs)
      as [(a & Ha & -> & -> & ->)|(e & He & -> & -> & ->)].
    + destruct (IH (λ y fs' Hy, Hbody y fs' (proj2 (elem_of_cons _ _ _) (or_intror Hy)))
                   _ HP1) as (HP2 & HΦ2 & Hres2).
      split_and!; [done|by apply Happ|done].
    + split_and!; [done|done|]. destruct Hres1 as [?|(e' & ? & ?)]; [congruence|].
      right. exists e. split; [done|]. congruence.
Qed.

Lemma for_each_not_Ok {A : Type} (l : list A) (body : A → M unit) (x : A) :
  x ∈ l → (∀ fs, res (body x fs) ≠ Ok tt) →
  ∀ fs, res (for_each l body fs) ≠ Ok tt.
Proof.
  induction l as [|y l IH]; [by intros ?%elem_of_nil|].
  intros Hx Hbody fs. simpl.
  destruct (bind_cases (body y) (λ _, for_each l body) fs)
    as [(a & Ha & -> & _)|(e & He & -> & _)]; [|done].
  apply elem_of_cons in Hx as [->|Hx].
  - destruct a. by destruct (Hbody fs).
  - by apply IH.
Qed.

(** ** Tracked and monotone computations *)

Lemma tracked_pure {A : Type} (r : result A) : tracked (lift r).
Proof. by intros fs p []. Qed.

Lemma tracked_print (s : string) : tracked (print s).
Proof. by intros fs p []. Qed.

Lemma tracked_exists (q : path) : tracked (os_path_exists q).
Proof. by intros fs p []. Qed.

Lemma tracked_json_load json_decode (q : path) : tracked (json_load json_decode q).
Proof. intros fs p []. by rewrite json_load_fs. Qed.

Lemma tracked_makedirs (q : path) : tracked (os_makedirs q).
Proof.
  intros fs p Hne. exists (Makedirs q).
  split; [rewrite os_makedirs_log; by apply list_elem_of_singleton|].
  unfold os_makedirs in Hne. destruct (existsb _ _); [done|]. simpl in *.
  rewrite lookup_makedirs_fs in Hne. by case_bool_decide.
Qed.

Lemma tracked_copy2 (src dst : path) : tracked (shutil_copy2 src dst).
Proof.
  intros fs p Hne. exists (Copy2 src dst).
  split; [rewrite shutil_copy2_log; by apply list_elem_of_singleton|].
  unfold shutil_copy2 in Hne. destruct (stat fs src) as [[|c]|]; try done.
  simpl in *. repeat (case_bool_decide || case_match); simplify_eq/=; try done.
  - rewrite lookup_insert in Hne. case_decide; [by right|done].
  - rewrite lookup_insert in Hne. case_decide; [by left|done].
Qed.

Lemma tracked_bind {A B : Type} (m : M A) (k : A → M B) :
  tracked m → (∀ a, tracked (k a)) → tracked (bind m k).
Proof.
  intros Hm Hk fs p.
  destruct (bind_cases m k fs) as [(a & Ha & _ & -> & ->)|(e & He & _ & -> & ->)].
  - intros Hne. destruct (decide (fs_of (m fs) !! p = fs !! p)) as [Heq|Hne1].
    + rewrite <- Heq in Hne. destruct (Hk a _ _ Hne) as (e & He & Ht).
      exists e. split; [apply elem_of_app; by right|done].
    + destruct (Hm _ _ Hne1) as (e & He & Ht).
      exists e. split; [apply elem_of_app; by left|done].
  - apply Hm.
Qed.

Lemma tracked_for_each {A : Type} (l : list A) (body : A → M unit) :
  (∀ x, tracked (body x)) → tracked (for_each l body).
Proof.
  intros Hbody. induction l as [|x l IH]; simpl.
  - apply (tracked_pure (Ok tt)).
  - by apply tracked_bind.
Qed.

Lemma monotone_same {A : Type} (m : M A) : (∀ fs, fs_of (m fs) = fs) → monotone m.
Proof. intros H fs p. by rewrite H. Qed.

Lemma monotone_makedirs (q : path) : monotone (os_makedirs q).
Proof.
  intros fs p. unfold os_makedirs. destruct (existsb _ _); [done|]. simpl.
  rewrite lookup_makedirs_fs. case_bool_decide; [|done]. split; [done|by eexists].
Qed.

Lemma monotone_copy2 (src dst : path) : monotone (shutil_copy2 src dst).
Proof.
  intros fs p. unfold shutil_copy2. destruct (stat fs src) as [[|c]|]; try done.
  simpl. set (dst' := if is_dir fs dst then _ else dst).
  case_bool_decide; [done|]. destruct (is_dir fs dst') eqn:Hd; [done|].
  destruct (is_dir fs (parent dst')); [|done]. simpl.
  rewrite lookup_insert. case_decide as Hp; [|done]. subst p.
  split; [|by eexists]. intros Hdir. unfold is_dir in Hd.
  destruct dst'; [done|]. simpl in Hd. by rewrite Hdir in Hd.
Qed.

Lemma monotone_bind {A B : Type} (m : M A) (k : A → M B) :
  monotone m → (∀ a, monotone (k a)) → monotone (bind m k).
Proof.
  intros Hm Hk fs p.
  destruct (bind_cases m k fs) as [(a & Ha & _ & -> & _)|(e & He & _ & -> & _)].
  - destruct (Hm fs p) as [H1 H2]. destruct (Hk a (fs_of (m fs)) p) as [H3 H4].
    split; auto.
  - apply Hm.
Qed.

Lemma monotone_for_each {A : Type} (l : list A) (body : A → M unit) :
  (∀ x, monotone (body x)) → monotone (for_each l body).
Proof.
  intros Hbody. induction l as [|x l IH]; simpl.
  - by apply monotone_same.
  - by apply monotone_bind.
Qed.

Section Structure.

Variable json_decode : string → option coco.
Variable order : set_order.
Variable output_dir : path.

Lemma tracked_process_image imap img_dir split_name item :
  tracked (process_image order output_dir imap img_dir split_name item).
Proof.
  destruct item as [i cats]. unfold process_image, dict_get, list_first.
  apply tracked_bind; [destruct (imap !! i); apply (tracked_pure _)|]. intros fn.
  apply tracked_bind; [destruct (order cats); apply (tracked_pure _)|]. intros c.
  apply tracked_bind; [apply tracked_makedirs|]. intros _.
  apply tracked_bind; [apply tracked_exists|]. intros [|].
  - apply tracked_bind; [apply tracked_copy2|]. intros _. apply tracked_print.
  - apply (tracked_pure (Ok tt)).
Qed.

Lemma tracked_process_split json_path img_dir split_name :
  tracked (process_split json_decode order output_dir json_path img_dir split_name).
Proof.
  unfold process_split.
  apply tracked_bind; [apply tracked_json_load|]. intros data.
  apply tracked_bind; [apply tracked_pure|]. intros ic.
  apply tracked_for_each. intros item. apply tracked_process_image.
Qed.

Lemma tracked_convert coco_dir :
  tracked (convert_cardd_to_directory json_decode order output_dir coco_dir).
Proof.
  unfold convert_cardd_to_directory.
  repeat first
    [ apply tracked_bind; [|intros _]
    | apply tracked_for_each; intros ?
    | apply tracked_makedirs
    | apply tracked_print
    | apply tracked_process_split
    | apply (tracked_pure (Ok tt)) ].
Qed.

Lemma monotone_process_image imap img_dir split_name item :
  monotone (process_image order output_dir imap img_dir split_name item).
Proof.
  destruct item as [i cats]. unfold process_image, dict_get, list_first.
  apply monotone_bind; [destruct (imap !! i); by apply monotone_same|]. intros fn.
  apply monotone_bind; [destruct (order cats); by apply monotone_same|]. intros c.
  apply monotone_bind; [apply monotone_makedirs|]. intros _.
  apply monotone_bind; [by apply monotone_same|]. intros [|].
  - apply monotone_bind; [apply monotone_copy2|]. intros _. by apply monotone_same.
  - by apply monotone_same.
Qed.

End Structure.

(** ** The whole conversion *)

Lemma incomparable_join (d out : path) (x : string) :
  incomparable d out → incomparable (path_join d x) out.
Proof.
  intros Hinc. pose proof (incomparable_not_region d out x Hinc) as Hreg.
  split; intros H; apply Hreg; [by left|by right].
Qed.

Lemma image_dirs_apart (coco_dir out : path) :
  incomparable coco_dir out → ∀ d, d ∈ image_dirs coco_dir → incomparable d out.
Proof.
  intros Hinc d Hd. unfold image_dirs in Hd.
  repeat (apply elem_of_cons in Hd as [->|Hd]); try by apply incomparable_join.
  by apply elem_of_nil in Hd.
Qed.

Lemma replayable_convert json_decode (order : set_order) (out coco_dir : path) :
  incomparable coco_dir out →
  replayable out (image_dirs coco_dir)
    (convert_cardd_to_directory json_decode order out coco_dir).
Proof.
  intros Hinc. pose proof (image_dirs_apart _ _ Hinc) as Hapart.
  assert (Hjson : ∀ x, ¬ region out (path_join (path_join coco_dir "annotations") x)).
  { intros x. by apply incomparable_not_region, incomparable_join. }
  assert (Hmk : ∀ split, replayable out (image_dirs coco_dir)
                  (os_makedirs (path_join out split))).
  { intros split. apply (replayable_makedirs out _ [split]). simpl; lia. }
  unfold convert_cardd_to_directory, image_dirs in *. simpl for_each.
  repeat first
    [ apply (replayable_bind _ _ Hapart); [|intros _]
    | apply Hmk
    | apply replayable_print
    | apply replayable_ret
    | apply (replayable_process_split _ _ _ Hapart); [apply Hjson|set_solver] ].
Qed.

Lemma touches_makedirs_region (out rel p : path) :
  touches (Makedirs (out ++ rel)) p → region out p.
Proof. simpl. apply region_ancestors. Qed.

Lemma touches_copy2_region (out rel src p : path) :
  touches (Copy2 src (out ++ rel)) p → region out p.
Proof.
  simpl. intros [->| ->]; [apply region_under|].
  unfold path_join. rewrite <- app_assoc. apply region_under.
Qed.

Lemma process_split_touches json_decode (order : set_order) out json_path img_dir
    split_name fs e p :
  e ∈ log (process_split json_decode order out json_path img_dir split_name fs) →
  touches e p → region out p.
Proof.
  intros (_ & _ & _ & _ & _ & fn & c & _ & _ & _ & _ & _ & _ & He)%process_split_log_inv.
  simpl in He. unfold path_join in He. rewrite <- !app_assoc in He.
  destruct He as [->|[->| ->]].
  - apply touches_makedirs_region.
  - apply touches_copy2_region.
  - done.
Qed.

Lemma convert_touches json_decode (order : set_order) out coco_dir fs e p :
  e ∈ log (convert_cardd_to_directory json_decode order out coco_dir fs) →
  touches e p → region out p.
Proof.
  unfold convert_cardd_to_directory. intros He.
  apply log_bind_elem in He as [He|(_ & _ & He)].
  { apply for_each_log_elem in He as (split & fs' & _ & He).
    rewrite os_makedirs_log in He. apply list_elem_of_singleton in He as ->.
    apply touches_makedirs_region. }
  repeat (apply log_bind_elem in He as [He|(_ & _ & He)];
          [first [ by eapply process_split_touches
                 | by apply list_elem_of_singleton in He as -> ]|]).
  by apply list_elem_of_singleton in He as ->.
Qed.

(** Whatever the converter changes lies in the output region. *)
Lemma convert_frame json_decode (order : set_order) out coco_dir fs p :
  ¬ region out p →
  fs_of (convert_cardd_to_directory json_decode order out coco_dir fs) !! p = fs !! p.
Proof.
  intros Hreg. destruct (decide (fs_of (convert_cardd_to_directory json_decode order
                                          out coco_dir fs) !! p = fs !! p)) as [|Hne];
    [done|].
  destruct (tracked_convert json_decode order out coco_dir fs p Hne) as (e & He & Ht).
  destruct Hreg. by eapply convert_touches.
Qed.

Lemma incomparable_under (coco_dir out p : path) :
  incomparable coco_dir out → coco_dir `prefix_of` p → ¬ region out p.
Proof.
  intros [H1 H2] Hp [Hr|Hr].
  - apply H1. by etrans.
  - destruct (prefix_weak_total _ _ _ Hp Hr); done.
Qed.

(** ** Building admissible file systems *)

(** Decide a closed decidable proposition by evaluation. *)
Ltac by_compute := refine (bool_decide_unpack _ _); vm_compute; exact I.

Lemma layout_ok_empty (out : path) : layout_ok out ∅.
Proof. intros p n. by rewrite lookup_empty. Qed.

Lemma layout_ok_insert (out p : path) (n : node) (fs : filesys) :
  node_ok out p n → layout_ok out fs → layout_ok out (<[p := n]> fs).
Proof.
  intros Hn Hlay q m. rewrite lookup_insert. case_decide; [|apply Hlay].
  intros [= <-]. by subst.
Qed.

Lemma no_subdir_empty (d : path) : no_subdir d ∅.
Proof. intros fn. by rewrite lookup_empty. Qed.

Lemma no_subdir_insert_file (d p : path) (c : string) (fs : filesys) :
  no_subdir d fs → no_subdir d (<[p := File c]> fs).
Proof.
  intros Hsub fn. rewrite lookup_insert. case_decide; [done|apply Hsub].
Qed.

Lemma env_ok_fs_cardd : env_ok ["out"] (image_dirs ["coco"]) fs_cardd.
Proof.
  unfold fs_cardd. split.
  - repeat (apply layout_ok_insert; [by_compute|]). apply layout_ok_empty.
  - intros d _. repeat apply no_subdir_insert_file. apply no_subdir_empty.
Qed.

(** ** The copy loop of one split *)

Section CopyLoop.

Variable json_decode : string → option coco.
Variable order : set_order.
Variable out : path.

Lemma process_split_loaded json_path img_dir split_name fs content data :
  stat fs json_path = Some (File content) → json_decode content = Some data →
  process_split json_decode order out json_path img_dir split_name fs =
    bind (lift (image_categories data))
         (λ ic, for_each ic (process_image order out (image_map data) img_dir split_name))
         fs.
Proof.
  intros Hst Hdec. unfold process_split.
  assert (Hload : json_load json_decode json_path fs = Outcome (Ok data) fs []).
  { unfold json_load. by rewrite Hst, Hdec. }
  rewrite (bind_step _ _ _ _ _ _ Hload). simpl. apply outcome_eta_inv.
Qed.

Lemma process_split_loop json_path img_dir split_name fs content data ic :
  stat fs json_path = Some (File content) → json_decode content = Some data →
  image_categories data = Ok ic →
  process_split json_decode order out json_path img_dir split_name fs =
    for_each ic (process_image order out (image_map data) img_dir split_name) fs.
Proof.
  intros Hst Hdec Hic. rewrite (process_split_loaded _ _ _ _ _ _ Hst Hdec), Hic.
  apply (bind_ret ic (λ ic, for_each ic _) fs).
Qed.

Lemma process_split_Ok_inv json_path img_dir split_name fs content data :
  stat fs json_path = Some (File content) → json_decode content = Some data →
  res (process_split json_decode order out json_path img_dir split_name fs) = Ok tt →
  ∃ ic, image_categories data = Ok ic.
Proof.
  intros Hst Hdec. rewrite (process_split_loaded _ _ _ _ _ _ Hst Hdec).
  destruct (image_categories data) as [ic|e]; [by exists ic|done].
Qed.

(** An image id that is not in [image_map] stops the loop at once. *)
Lemma process_image_KeyError imap img_dir split_name i cats fs :
  imap !! i = None →
  process_image order out imap img_dir split_name (i, cats) fs =
    Outcome (Raise (KeyError i)) fs [].
Proof. intros Hi. unfold process_image, dict_get. by rewrite Hi, bind_raise. Qed.

(** When the source file is missing the iteration is the [os.makedirs]
    call and nothing else: no copy, no printed line, no exception of its
    own. *)
Lemma process_image_missing_source imap img_dir split_name i cats fn c r fs :
  imap !! i = Some fn → order cats = c :: r →
  incomparable img_dir out →
  fs !! path_join img_dir fn = None →
  process_image order out imap img_dir split_name (i, cats) fs =
    os_makedirs (path_join (path_join out split_name) c) fs.
Proof.
  intros Hfn Hc Hinc Hsrc. unfold process_image, dict_get, list_first.
  rewrite Hfn, Hc, !bind_ret.
  set (category_dir := path_join (path_join out split_name) c).
  destruct (os_makedirs category_dir fs) as [[[]|e] fs1 l1] eqn:Hmk; cycle 1.
  { unfold bind. by rewrite Hmk. }
  rewrite (bind_step _ _ _ _ _ _ Hmk).
  assert (Hfs1 : fs1 !! path_join img_dir fn = None).
  { unfold os_makedirs in Hmk. destruct (existsb _ _); [done|].
    injection Hmk as <- <-. rewrite lookup_makedirs_fs.
    rewrite bool_decide_eq_false_2; [done|]. intros Hin.
    apply (incomparable_not_region img_dir out fn Hinc).
    unfold category_dir, path_join in Hin. rewrite <- app_assoc in Hin.
    by eapply region_ancestors. }
  unfold bind, os_path_exists. simpl.
  rewrite stat_lookup by apply path_join_ne_nil. rewrite Hfs1.
  rewrite bool_decide_eq_false_2 by by intros [? ?]. simpl.
  by rewrite app_nil_r.
Qed.

End CopyLoop.

Section CopyLoopEnv.

Variable order : set_order.
Variable out : path.
Variable dirs : list path.
Hypothesis dirs_apart : ∀ d, d ∈ dirs → incomparable d out.

(** In an admissible environment the copy loop can only fail with the
    [KeyError] of an image id that is missing from [image_map]. *)
Lemma copy_loop_env imap img_dir split_name ic fs :
  img_dir ∈ dirs → dict_wf ic → env_ok out dirs fs →
  let o := for_each ic (process_image order out imap img_dir split_name) fs in
  env_ok out dirs (fs_of o) ∧
  (res o = Ok tt ∨
   ∃ e, res o = Raise e ∧ ∃ k, e = KeyError k ∧ k ∈ ic.*1 ∧ imap !! k = None).
Proof.
  intros Hdir [_ Hwf] Henv.
  destruct (for_each_inv (env_ok out dirs) (λ _, True)
              (λ e, ∃ k, e = KeyError k ∧ k ∈ ic.*1 ∧ imap !! k = None)
              ic (process_image order out imap img_dir split_name))
    with (fs := fs) as (H1 & _ & H2); try done.
  intros [i cats] fs1 Hin Henv1. split_and!; [|done|].
  - apply (replayable_env_ok out dirs dirs_apart); [|done].
    by apply replayable_process_image.
  - destruct (imap !! i) as [fn|] eqn:Hfn.
    + destruct (Hwf _ _ Hin) as [Hnd Hne].
      destruct (set_order_nonempty order cats Hnd Hne) as (c & r & Hc).
      left. rewrite (process_image_env order out dirs dirs_apart imap img_dir
                       split_name i cats fn c r fs1 Henv1 Hdir Hfn Hc).
      by destruct (fs1 !! path_join img_dir fn) as [[|?]|].
    + right. rewrite (process_image_KeyError order out imap img_dir split_name
                        i cats fs1 Hfn).
      eexists. split; [done|]. exists i. split_and!; [done| |done].
      apply list_elem_of_fmap. by exists (i, cats).
Qed.

(** A source file that is missing stays missing, and no [shutil.copy2]
    call reads it. *)
Lemma copy_loop_missing_source imap img_dir split_name ic fs fn0 :
  img_dir ∈ dirs → dict_wf ic → env_ok out dirs fs →
  fs !! path_join img_dir fn0 = None →
  let o := for_each ic (process_image order out imap img_dir split_name) fs in
  fs_of o !! path_join img_dir fn0 = None ∧
  ∀ src dst, Copy2 src dst ∈ log o → src ≠ path_join img_dir fn0.
Proof.
  intros Hdir [_ Hwf] Henv Hsrc0.
  destruct (for_each_inv
              (λ fs1, env_ok out dirs fs1 ∧ fs1 !! path_join img_dir fn0 = None)
              (λ lg, ∀ src dst, Copy2 src dst ∈ lg → src ≠ path_join img_dir fn0)
              (λ _, True)
              ic (process_image order out imap img_dir split_name))
    with (fs := fs) as ([_ H1] & H2 & _); try done.
  - by intros src dst ?%elem_of_nil.
  - intros l1 l2 H1 H2 src dst [?|?]%elem_of_app; eauto.
  - intros [i cats] fs1 Hin [Henv1 Hnone].
    assert (Hrep : replayable out dirs
              (process_image order out imap img_dir split_name (i, cats)))
      by by apply replayable_process_image.
    split_and!.
    + by apply (replayable_env_ok out dirs dirs_apart).
    + rewrite <- (replayable_agree out dirs _ fs1 Hrep Henv1); [done|].
      apply incomparable_not_region. by apply dirs_apart.
    + intros src dst Hlog. pose proof Hlog as He.
      apply process_image_log_inv in He as (fn & c & Hfn & Hc & He). simpl in He.
      destruct He as [?|[He|?]]; [done| |done]. injection He as -> ->.
      intros [_ ->]%path_join_inj.
      destruct (order cats) as [|c' r] eqn:Hoc; [done|].
      rewrite (process_image_env order out dirs dirs_apart imap img_dir
                 split_name i cats fn0 c' r fs1 Henv1 Hdir Hfn Hoc) in Hlog.
      rewrite Hnone in Hlog. simpl in Hlog.
      apply list_elem_of_singleton in Hlog. done.
    + destruct (res _) as [[]|e]; [by left|right; by exists e].
Qed.

End CopyLoopEnv.

(** ** Shape of the call trace of one iteration *)

Section LogShape.

Variable json_decode : string → option coco.
Variable order : set_order.
Variable out : path.

Lemma process_image_log_shape imap img_dir split_name i cats fs :
  let lg := log (process_image order out imap img_dir split_name (i, cats) fs) in
  lg = [] ∨
  ∃ fn c, imap !! i = Some fn ∧ head (order cats) = Some c ∧
    let category_dir := path_join (path_join out split_name) c in
    let copy := Copy2 (path_join img_dir fn) (path_join category_dir fn) in
    lg = [Makedirs category_dir] ∨
    lg = [Makedirs category_dir; copy] ∨
    lg = [Makedirs category_dir; copy;
          Print ("Copied " +:+ fn +:+ " to " +:+ split_name +:+ "/" +:+ c +:+ "/")].
Proof.
  intros lg. assert (Hlg : lg = log (process_image order out imap img_dir
                                       split_name (i, cats) fs)) by done.
  clearbody lg. unfold process_image, dict_get, list_first in Hlg.
  destruct (imap !! i) as [fn|]; [|by left].
  destruct (order cats) as [|c r]; [by left|]. rewrite !bind_ret in Hlg.
  right. exists fn, c. split_and!; [done|done|]. simpl.
  pose proof (os_makedirs_log (path_join (path_join out split_name) c) fs) as Hmk.
  unfold bind at 1 in Hlg.
  destruct (os_makedirs _ fs) as [[[]|e] fs1 l1]; simpl in *; subst l1; [|by left].
  unfold bind at 1, os_path_exists in Hlg. simpl in Hlg.
  destruct (bool_decide _); simpl in Hlg; [|by left].
  pose proof (shutil_copy2_log (path_join img_dir fn)
    (path_join (path_join (path_join out split_name) c) fn) fs1) as Hcp.
  unfold bind in Hlg.
  destruct (shutil_copy2 _ _ fs1) as [[[]|e] fs2 l2]; simpl in *; subst l2.
  - right; by right.
  - right; by left.
Qed.

Lemma prints_follow_copies_app img_dir split_name l1 l2 :
  prints_follow_copies out img_dir split_name l1 →
  prints_follow_copies out img_dir split_name l2 →
  prints_follow_copies out img_dir split_name (l1 ++ l2).
Proof.
  intros H1 H2 s [Hs|Hs]%elem_of_app.
  - destruct (H1 s Hs) as (fn & c & ? & ?). exists fn, c.
    split; [done|]. apply elem_of_app; by left.
  - destruct (H2 s Hs) as (fn & c & ? & ?). exists fn, c.
    split; [done|]. apply elem_of_app; by right.
Qed.

Lemma process_image_prints imap img_dir split_name item fs :
  prints_follow_copies out img_dir split_name
    (log (process_image order out imap img_dir split_name item fs)).
Proof.
  destruct item as [i cats]. intros s Hs.
  destruct (process_image_log_shape imap img_dir split_name i cats fs)
    as [Hl|(fn & c & _ & _ & Hl)].
  { rewrite Hl in Hs. by apply elem_of_nil in Hs. }
  cbv zeta in Hl. destruct Hl as [Hl|[Hl|Hl]]; rewrite Hl in *.
  - apply list_elem_of_singleton in Hs. done.
  - repeat (apply elem_of_cons in Hs as [Hs|Hs]; [done|]). by apply elem_of_nil in Hs.
  - exists fn, c. split.
    + repeat (apply elem_of_cons in Hs as [Hs|Hs]; [by simplify_eq|]).
      by apply elem_of_nil in Hs.
    + apply elem_of_cons; right. apply elem_of_cons; by left.
Qed.

Lemma process_split_prints json_path img_dir split_name fs :
  prints_follow_copies out img_dir split_name
    (log (process_split json_decode order out json_path img_dir split_name fs)).
Proof.
  unfold process_split.
  destruct (bind_cases (json_load json_decode json_path)
    (λ data, bind (lift (image_categories data))
       (λ ic, for_each ic (process_image order out (image_map data) img_dir split_name)))
    fs) as [(data & _ & _ & _ & ->)|(e & _ & _ & _ & ->)];
    rewrite json_load_log, ?json_load_fs; [|by intros s ?%elem_of_nil].
  simpl. destruct (image_categories data) as [ic|e]; [|by intros s ?%elem_of_nil].
  change (lift (Ok ic)) with (@ret (list (Z * list string)) ic). rewrite bind_ret.
  destruct (for_each_inv (λ _, True) (prints_follow_copies out img_dir split_name)
              (λ _, True) ic
              (process_image order out (image_map data) img_dir split_name))
    with (fs := fs) as (_ & H & _); try done.
  - by intros s ?%elem_of_nil.
  - apply prints_follow_copies_app.
  - intros item fs1 _ _. split_and!; [done|apply process_image_prints|].
    destruct (res _) as [[]|e]; [by left|right; by exists e].
Qed.

End LogShape.

Lemma env_ok_fs_example (ann : string) :
  env_ok ["out"] [train_img_dir] (fs_example ann).
Proof.
  unfold fs_example. split.
  - repeat (apply layout_ok_insert; [by_compute|]). apply layout_ok_empty.
  - intros d _. repeat apply no_subdir_insert_file. apply no_subdir_empty.
Qed.

Lemma env_ok_fs_no_image (ann : string) :
  env_ok ["out"] [train_img_dir] (fs_no_image ann).
Proof.
  unfold fs_no_image. split.
  - repeat (apply layout_ok_insert; [by_compute|]). apply layout_ok_empty.
  - intros d _. repeat apply no_subdir_insert_file. apply no_subdir_empty.
Qed.

Lemma singleton_apart (img_dir out : path) :
  incomparable img_dir out → ∀ d, d ∈ [img_dir] → incomparable d out.
Proof. by intros ? d ->%list_elem_of_singleton. Qed.

Lemma set_order_singleton (order : set_order) (c : string) : order [c] = [c].
Proof.
  apply Permutation_singleton_r, (list_of_set_perm order [c]), NoDup_singleton.
Qed.

Lemma bind_ret_r (m : M unit) fs : bind m (λ _, ret tt) fs = m fs.
Proof.
  unfold bind, ret. destruct (m fs) as [[[]|e] fs1 l1]; simpl; [|done].
  by rewrite app_nil_r.
Qed.

(** A destination [output_dir/<split>/<category>/<file_name>] changes only
    through a [shutil.copy2] call for that file name. *)
Lemma destination_changed json_decode (order : set_order) out json_path img_dir
    split_name fs c fn :
  let o := process_split json_decode order out json_path img_dir split_name fs in
  let dst := path_join (path_join (path_join out split_name) c) fn in
  fs_of o !! dst ≠ fs !! dst →
  Copy2 (path_join img_dir fn) dst ∈ log o.
Proof.
  intros o dst Hne.
  destruct (tracked_process_split json_decode order out json_path img_dir split_name
              fs dst Hne) as (e & He & Ht).
  pose proof He as He'.
  apply process_split_log_inv in He'
    as (_ & _ & _ & _ & _ & fn' & c' & _ & _ & _ & _ & _ & _ & Hshape).
  cbv zeta in Hshape. destruct Hshape as [->|[->| ->]]; simpl in Ht.
  - apply ancestors_length in Ht. unfold dst, path_join in Ht.
    rewrite !length_app in Ht. simpl in Ht. lia.
  - destruct Ht as [Ht|Ht].
    + unfold dst in Ht. apply path_join_inj in Ht as [Ht ->].
      apply path_join_inj in Ht as [_ ->]. done.
    + apply (f_equal length) in Ht. unfold dst in Ht.
      unfold path_join in Ht. rewrite !length_app in Ht. simpl in Ht. lia.
  - done.
Qed.

(** A split returns normally when no id of the annotation file dangles
    and nothing is in the way of the file-system calls. *)
Lemma process_split_returns json_decode (order : set_order) out json_path img_dir
    split_name fs content data :
  stat fs json_path = Some (File content) →
  json_decode content = Some data →
  env_ok out [img_dir] fs →
  incomparable img_dir out →
  (∀ b, b ∈ annotations data →
        is_Some (category_map data !! category_id b) ∧
        is_Some (image_map data !! image_id b)) →
  res (process_split json_decode order out json_path img_dir split_name fs) = Ok tt.
Proof.
  intros Hst Hdec Henv Hinc Hwf.
  destruct (annotation_loop_Ok (category_map data) (annotations data) [])
    as [ic Hic]; [intros b Hb; by apply Hwf|].
  rewrite (process_split_loop _ _ _ _ _ _ _ _ _ ic Hst Hdec Hic).
  destruct (copy_loop_env order out [img_dir] (singleton_apart _ _ Hinc)
              (image_map data) img_dir split_name ic fs)
    as (_ & [Hok|(e & He & k & -> & Hk & Hnone)]);
    [by apply list_elem_of_singleton|by eapply image_categories_wf|done|done|].
  apply list_elem_of_fmap in Hk as ([k' s] & -> & Hk). simpl in Hnone.
  destruct (image_categories_annotated _ _ _ _ Hic Hk) as (b & Hb & Hbi).
  destruct (Hwf b Hb) as [_ [x Hx]]. rewrite Hbi in Hx. congruence.
Qed.

(** ** Runs that return normally *)

Lemma for_each_Ok_split {A : Type} (l1 l2 : list A) (x : A) (body : A → M unit) fs :
  res (for_each (l1 ++ x :: l2) body fs) = Ok tt →
  let o1 := for_each l1 body fs in
  let ox := body x (fs_of o1) in
  let o2 := for_each l2 body (fs_of ox) in
  res o1 = Ok tt ∧ res ox = Ok tt ∧ res o2 = Ok tt ∧
  log (for_each (l1 ++ x :: l2) body fs) = log o1 ++ log ox ++ log o2 ∧
  fs_of (for_each (l1 ++ x :: l2) body fs) = fs_of o2.
Proof.
  rewrite for_each_app. cbn [for_each].
  destruct (bind_cases (for_each l1 body)
              (λ _, bind (body x) (λ _, for_each l2 body)) fs)
    as [([] & H1 & -> & -> & ->)|(e & _ & -> & _)]; [|done].
  destruct (bind_cases (body x) (λ _, for_each l2 body) (fs_of (for_each l1 body fs)))
    as [([] & Hx & -> & -> & ->)|(e & _ & -> & _)]; [|done].
  intros H2. by split_and!.
Qed.

Lemma filter_copies_none (src : path) (lg : list event) :
  (∀ s d, Copy2 s d ∈ lg → s ≠ src) → List.filter (copies_from src) lg = [].
Proof.
  induction lg as [|e lg IH]; [done|]. intros H. simpl.
  rewrite IH by (intros s d Hin; apply (H s d); apply elem_of_cons; by right).
  destruct e as [q|s d|m]; simpl; try done.
  case_bool_decide as Hs; [|done]. subst s.
  destruct (H src d); [apply elem_of_cons; by left|done].
Qed.

Section NormalRuns.

Variable json_decode : string → option coco.
Variable order : set_order.
Variable out : path.

(** The copy loop is monotone: what exists keeps existing. *)
Lemma monotone_copy_loop imap img_dir split_name ic :
  monotone (for_each ic (process_image order out imap img_dir split_name)).
Proof. apply monotone_for_each. intros item. apply monotone_process_image. Qed.

(** An iteration that returns normally has made the category directory. *)
Lemma process_image_Ok_dir imap img_dir split_name i cats fs :
  let o := process_image order out imap img_dir split_name (i, cats) fs in
  res o = Ok tt →
  ∃ fn c, imap !! i = Some fn ∧ head (order cats) = Some c ∧
    Makedirs (path_join (path_join out split_name) c) ∈ log o ∧
    fs_of o !! path_join (path_join out split_name) c = Some Dir.
Proof.
  intros o. unfold o, process_image, dict_get, list_first.
  destruct (imap !! i) as [fn|]; [|done].
  destruct (order cats) as [|c r]; [done|]. rewrite !bind_ret.
  set (category_dir := path_join (path_join out split_name) c).
  set (rest := λ _ : unit,
         present <- os_path_exists (path_join img_dir fn) ;;
         if (present : bool)
         then shutil_copy2 (path_join img_dir fn) (path_join category_dir fn) ;;;
              print ("Copied " +:+ fn +:+ " to " +:+ split_name +:+ "/" +:+ c +:+ "/")
         else ret tt).
  assert (Hrest : monotone (rest tt)).
  { apply monotone_bind; [by apply monotone_same|]. intros [|].
    - apply monotone_bind; [apply monotone_copy2|]. intros _. by apply monotone_same.
    - by apply monotone_same. }
  destruct (bind_cases (os_makedirs category_dir) rest fs)
    as [([] & Hmk & -> & -> & ->)|(e & _ & -> & _)]; [|done].
  intros Hres. exists fn, c. split_and!; [done|done| |].
  - apply elem_of_app; left. rewrite os_makedirs_log.
    by apply list_elem_of_singleton.
  - apply Hrest. apply (os_makedirs_Ok _ _ Hmk).
    apply ancestors_self, path_join_ne_nil.
Qed.

(** An iteration that returns normally and finds the source file has
    copied it, once. *)
Lemma process_image_Ok_copy imap img_dir split_name i cats fn fs :
  let o := process_image order out imap img_dir split_name (i, cats) fs in
  res o = Ok tt → imap !! i = Some fn → is_Some (fs !! path_join img_dir fn) →
  ∃ c, head (order cats) = Some c ∧
    let category_dir := path_join (path_join out split_name) c in
    log o = [Makedirs category_dir;
             Copy2 (path_join img_dir fn) (path_join category_dir fn);
             Print ("Copied " +:+ fn +:+ " to " +:+ split_name +:+ "/" +:+ c +:+ "/")].
Proof.
  intros o Hres Hfn Hsrc. unfold o, process_image, dict_get, list_first in *.
  rewrite Hfn in *. destruct (order cats) as [|c r]; [done|].
  rewrite !bind_ret in *. exists c. split; [done|]. cbv zeta.
  set (category_dir := path_join (path_join out split_name) c) in *.
  pose proof (os_makedirs_log category_dir fs) as Hlmk.
  pose proof (monotone_makedirs category_dir fs (path_join img_dir fn)) as [_ Hmono].
  specialize (Hmono Hsrc).
  unfold bind at 1 in Hres. unfold bind at 1.
  destruct (os_makedirs category_dir fs) as [[[]|e] fs1 l1]; [|done].
  simpl in Hlmk, Hmono, Hres |- *. subst l1.
  unfold bind at 1, os_path_exists in Hres. unfold bind at 1, os_path_exists.
  simpl in Hres |- *.
  rewrite stat_lookup in Hres |- * by apply path_join_ne_nil.
  rewrite bool_decide_eq_true_2 in Hres |- * by done. simpl in Hres |- *.
  pose proof (shutil_copy2_log (path_join img_dir fn) (path_join category_dir fn) fs1)
    as Hlcp.
  unfold bind in Hres |- *.
  destruct (shutil_copy2 _ _ fs1) as [[[]|e] fs2 l2]; [|done].
  simpl in Hlcp |- *. by subst l2.
Qed.

End NormalRuns.

(** ** Where the bytes end up *)

Lemma agree_outside_trans (out : path) (fs1 fs2 fs3 : filesys) :
  agree_outside out fs1 fs2 → agree_outside out fs2 fs3 → agree_outside out fs1 fs3.
Proof. intros H12 H23 p Hp. by rewrite (H12 p Hp), (H23 p Hp). Qed.

Section Destination.

Variable order : set_order.
Variable out : path.
Variable img_dir : path.
Hypothesis apart : incomparable img_dir out.

(** A destination that holds the bytes of its source keeps them through
    the rest of the copy loop. *)
Lemma copy_loop_keeps_destination imap split_name l fs0 fs c fn bytes :
  (∀ j s, (j, s) ∈ l → NoDup s ∧ s ≠ []) →
  fs0 !! path_join img_dir fn = Some (File bytes) →
  env_ok out [img_dir] fs → agree_outside out fs0 fs →
  fs !! path_join (path_join (path_join out split_name) c) fn = Some (File bytes) →
  fs_of (for_each l (process_image order out imap img_dir split_name) fs)
    !! path_join (path_join (path_join out split_name) c) fn = Some (File bytes).
Proof.
  intros Hwf Hsrc Henv Hag Hdst.
  pose proof (singleton_apart img_dir out apart) as dirs_apart.
  set (dst := path_join (path_join (path_join out split_name) c) fn) in *.
  assert (Hdir : img_dir ∈ [img_dir]) by by apply list_elem_of_singleton.
  destruct (for_each_inv
              (λ fs1, env_ok out [img_dir] fs1 ∧ agree_outside out fs0 fs1 ∧
                      fs1 !! dst = Some (File bytes))
              (λ _, True) (λ _, True) l
              (process_image order out imap img_dir split_name))
    with (fs := fs) as ((_ & _ & H) & _); try done.
  intros [j s] fs1 Hj (Henv1 & Hag1 & Hdst1).
  assert (Hrep : replayable out [img_dir]
            (process_image order out imap img_dir split_name (j, s)))
    by by apply replayable_process_image.
  split; [|split; [done|destruct (res _) as [[]|e]; [by left|right; by exists e]]].
  split_and!.
  - by apply (replayable_env_ok out [img_dir] dirs_apart).
  - apply (agree_outside_trans out fs0 fs1); [done|].
    by apply (replayable_agree out [img_dir]).
  - destruct (imap !! j) as [fn'|] eqn:Hfn'; cycle 1.
    { by rewrite process_image_KeyError. }
    destruct (Hwf _ _ Hj) as [Hnd Hne].
    destruct (set_order_nonempty order s Hnd Hne) as (c' & r & Hc').
    rewrite (process_image_env order out [img_dir] dirs_apart imap img_dir
               split_name j s fn' c' r fs1 Henv1 Hdir Hfn' Hc').
    assert (Hmk : makedirs_fs (path_join (path_join out split_name) c') fs1 !! dst
                  = Some (File bytes)).
    { rewrite lookup_makedirs_fs, bool_decide_eq_false_2; [done|].
      intros Hin%ancestors_length. unfold dst, path_join in Hin.
      rewrite !length_app in Hin. simpl in Hin. lia. }
    assert (Hsrc' : fs1 !! path_join img_dir fn' = fs0 !! path_join img_dir fn').
    { symmetry. apply Hag1. by apply incomparable_not_region. }
    destruct (fs1 !! path_join img_dir fn') as [[|content]|] eqn:Hl; simpl; try done.
    rewrite lookup_insert. case_decide as Heq; [|done].
    unfold dst in Heq. apply path_join_inj in Heq as [_ ->].
    congruence.
Qed.

End Destination.

(** ** The iteration the copy loop reaches *)

Lemma decode_example_plain (content : string) (data : coco) :
  decode_example content = Some data → plain_data data.
Proof.
  unfold decode_example.
  repeat case_bool_decide; intros [= <-]; by_compute.
Qed.

Section Reached.

Variable order : set_order.
Variable out : path.
Variable img_dir : path.
Hypothesis apart : incomparable img_dir out.

(** While every image id met is listed in [image_map], the copy loop goes
    on: it returns normally, the environment stays admissible and nothing
    outside the output region changes. *)
Lemma copy_loop_goes_on imap split_name l fs :
  (∀ j s, (j, s) ∈ l → NoDup s ∧ s ≠ []) →
  (∀ j s, (j, s) ∈ l → is_Some (imap !! j)) →
  env_ok out [img_dir] fs →
  let o := for_each l (process_image order out imap img_dir split_name) fs in
  res o = Ok tt ∧ env_ok out [img_dir] (fs_of o) ∧ agree_outside out fs (fs_of o).
Proof.
  intros Hwf Hall Henv o.
  pose proof (singleton_apart img_dir out apart) as dirs_apart.
  assert (Hdir : img_dir ∈ [img_dir]) by by apply list_elem_of_singleton.
  destruct (for_each_inv
              (λ fs1, env_ok out [img_dir] fs1 ∧ agree_outside out fs fs1)
              (λ _, True) (λ _, False) l
              (process_image order out imap img_dir split_name))
    with (fs := fs) as ((H1 & H2) & _ & [H3|(e & _ & [])]); try done.
  intros [j s] fs1 Hj (Henv1 & Hag1).
  assert (Hrep : replayable out [img_dir]
            (process_image order out imap img_dir split_name (j, s)))
    by by apply replayable_process_image.
  split; [split|split; [done|]].
  - by apply (replayable_env_ok out [img_dir] dirs_apart).
  - apply (agree_outside_trans out fs fs1); [done|].
    by apply (replayable_agree out [img_dir]).
  - left. destruct (Hall _ _ Hj) as [fn Hfn]. destruct (Hwf _ _ Hj) as [Hnd Hne].
    destruct (set_order_nonempty order s Hnd Hne) as (c & r & Hc).
    rewrite (process_image_env order out [img_dir] dirs_apart imap img_dir
               split_name j s fn c r fs1 Henv1 Hdir Hfn Hc).
    by destruct (fs1 !! path_join img_dir fn) as [[|?]|].
Qed.

(** The iteration for an image that the loop reaches: every image id
    annotated earlier is listed in [image_map], and so is its own.  The
    iteration returns normally, and the run is the earlier iterations,
    this one and the later ones. *)
Lemma copy_loop_reaches imap split_name l1 i cats l2 fn c r fs :
  (∀ j s, (j, s) ∈ l1 ++ (i, cats) :: l2 → NoDup s ∧ s ≠ []) →
  (∀ j s, (j, s) ∈ l1 → is_Some (imap !! j)) →
  imap !! i = Some fn → order cats = c :: r →
  env_ok out [img_dir] fs →
  let body := process_image order out imap img_dir split_name in
  let category_dir := path_join (path_join out split_name) c in
  let o1 := for_each l1 body fs in
  let ox := body (i, cats) (fs_of o1) in
  let o2 := for_each l2 body (fs_of ox) in
  ox = match fs !! path_join img_dir fn with
       | Some (File content) =>
           Outcome (Ok tt)
             (<[path_join category_dir fn := File content]>
                (makedirs_fs category_dir (fs_of o1)))
             [Makedirs category_dir;
              Copy2 (path_join img_dir fn) (path_join category_dir fn);
              Print ("Copied " +:+ fn +:+ " to " +:+ split_name +:+ "/" +:+ c +:+ "/")]
       | _ => Outcome (Ok tt) (makedirs_fs category_dir (fs_of o1))
                [Makedirs category_dir]
       end ∧
  env_ok out [img_dir] (fs_of ox) ∧ agree_outside out fs (fs_of ox) ∧
  for_each (l1 ++ (i, cats) :: l2) body fs
  = Outcome (res o2) (fs_of o2) (log o1 ++ log ox ++ log o2).
Proof.
  intros Hwf Hall Hfn Hc Henv body category_dir o1 ox o2.
  pose proof (singleton_apart img_dir out apart) as dirs_apart.
  assert (Hdir : img_dir ∈ [img_dir]) by by apply list_elem_of_singleton.
  destruct (copy_loop_goes_on imap split_name l1 fs) as (H1 & Henv1 & Hag1);
    [|done|done|].
  { intros j s Hj. apply (Hwf j s). apply elem_of_app; by left. }
  fold body o1 in H1, Henv1, Hag1.
  assert (Hrep : replayable out [img_dir] (body (i, cats)))
    by by apply replayable_process_image.
  assert (Hx : ox = match fs !! path_join img_dir fn with
       | Some (File content) =>
           Outcome (Ok tt)
             (<[path_join category_dir fn := File content]>
                (makedirs_fs category_dir (fs_of o1)))
             [Makedirs category_dir;
              Copy2 (path_join img_dir fn) (path_join category_dir fn);
              Print ("Copied " +:+ fn +:+ " to " +:+ split_name +:+ "/" +:+ c +:+ "/")]
       | _ => Outcome (Ok tt) (makedirs_fs category_dir (fs_of o1))
                [Makedirs category_dir]
       end).
  { unfold ox, body.
    rewrite (process_image_env order out [img_dir] dirs_apart imap img_dir
               split_name i cats fn c r (fs_of o1) Henv1 Hdir Hfn Hc).
    rewrite <- (Hag1 (path_join img_dir fn)); [done|].
    by apply incomparable_not_region. }
  split_and!.
  - done.
  - by apply (replayable_env_ok out [img_dir] dirs_apart).
  - apply (agree_outside_trans out fs (fs_of o1)); [done|].
    by apply (replayable_agree out [img_dir]).
  - assert (Hresx : res ox = Ok tt).
    { rewrite Hx. by destruct (fs !! path_join img_dir fn) as [[|?]|]. }
    rewrite for_each_app. rewrite (bind_Ok _ _ _ tt H1). fold o1.
    cbn [for_each]. rewrite (bind_Ok _ _ _ tt Hresx). fold ox o2. done.
Qed.

(** No other iteration copies the file of an image whose file name
    belongs to no other annotated image. *)
Lemma copy_loop_other_sources data split_name ic i fn l fs :
  image_categories data = Ok ic →
  (∀ b, b ∈ annotations data →
        image_map data !! image_id b = Some fn → image_id b = i) →
  (∀ j s, (j, s) ∈ l → j ≠ i) → l ⊆ ic →
  List.filter (copies_from (path_join img_dir fn))
    (log (for_each l (process_image order out (image_map data) img_dir split_name) fs))
  = [].
Proof.
  intros Hic Huniq Hl Hsub. apply filter_copies_none. intros s d He.
  apply for_each_log_elem in He as ([j cats'] & fs'' & Hj & He).
  apply process_image_log_inv in He as (fn' & c' & Hfn' & _ & He).
  cbv zeta in He. destruct He as [?|[He|?]]; [done| |done].
  injection He as -> ->. intros [_ ->]%path_join_inj.
  destruct (image_categories_annotated _ _ _ _ Hic (Hsub _ Hj)) as (b & Hb & Hbj).
  apply (Hl _ _ Hj). rewrite <- Hbj. apply Huniq; [done|by rewrite Hbj].
Qed.

End Reached.

(** * The claims *)

(** C1. Every image that [process_split] copies goes to
    [output_dir/<split_name>/<category_name>/<file_name>]: the copied file is
    the image's file in the image folder, [<file_name>] is the image's file
    name from the images list, and [<category_name>] is the first element of
    the image's category-name set taken as a list, which is the name of a
    category referenced by one of the image's annotations. *)
Theorem C1_copy_destination json_decode (order : set_order) output_dir
    json_path img_dir split_name fs src dst :
  Copy2 src dst ∈
    log (process_split json_decode order output_dir json_path img_dir split_name fs) →
  ∃ content data ic i cats fn c,
    stat fs json_path = Some (File content) ∧ json_decode content = Some data ∧
    image_categories data = Ok ic ∧ (i, cats) ∈ ic ∧
    image_map data !! i = Some fn ∧
    (∃ img, img ∈ images data ∧ img_id img = i ∧ file_name img = fn) ∧
    head (order cats) = Some c ∧ c ∈ cats ∧
    (∃ a, a ∈ annotations data ∧ image_id a = i ∧
          category_map data !! category_id a = Some c) ∧
    src = path_join img_dir fn ∧
    dst = path_join (path_join (path_join output_dir split_name) c) fn.
Proof. apply copy2_call_inv. Qed.

Lemma C1_copy_destination_witness :
  ∃ content data ic i cats fn c,
    stat (fs_example "two") train_json = Some (File content) ∧
    decode_example content = Some data ∧
    image_categories data = Ok ic ∧ (i, cats) ∈ ic ∧
    image_map data !! i = Some fn ∧
    (∃ img, img ∈ images data ∧ img_id img = i ∧ file_name img = fn) ∧
    head (reverse_order cats) = Some c ∧ c ∈ cats ∧
    (∃ a, a ∈ annotations data ∧ image_id a = i ∧
          category_map data !! category_id a = Some c) ∧
    ["coco"; "train2017"; "a.jpg"] = path_join train_img_dir fn ∧
    ["out"; "train"; "scratch"; "a.jpg"] =
      path_join (path_join (path_join ["out"] "train") c) fn.
Proof.
  apply (C1_copy_destination decode_example reverse_order ["out"] train_json
           train_img_dir "train" (fs_example "two")).
  vm_compute. apply elem_of_cons; right. apply elem_of_cons; by left.
Defined.

(** C2 (as stated, refuted). Image 10 is annotated with the categories
    "dent" and "scratch" and its source file exists, but the first
    annotation of the file refers to image 99, which is not listed: the
    copy loop fails on image 99 before it reaches image 10, and image 10 is
    copied into no category directory. *)
Lemma C2_not_copied_counterexample :
  let o := process_split decode_dangling insertion_order ["out"] train_json
             train_img_dir "train" (fs_example "dangling") in
  {| image_id := 10; category_id := 1 |} ∈ annotations data_dangling_first ∧
  {| image_id := 10; category_id := 2 |} ∈ annotations data_dangling_first ∧
  category_map data_dangling_first !! 1 = Some "dent" ∧
  category_map data_dangling_first !! 2 = Some "scratch" ∧
  image_map data_dangling_first !! 10 = Some "a.jpg" ∧
  fs_example "dangling" !! path_join train_img_dir "a.jpg" = Some (File "JPEG-a") ∧
  o = Outcome (Raise (KeyError 99)) (fs_example "dangling") [] ∧
  ∀ c, fs_of o !! path_join (path_join (path_join ["out"] "train") c) "a.jpg" = None.
Proof.
  assert (Ho : process_split decode_dangling insertion_order ["out"] train_json
                 train_img_dir "train" (fs_example "dangling")
               = Outcome (Raise (KeyError 99)) (fs_example "dangling") []) by reflexivity.
  cbv zeta. rewrite Ho. split_and!; try reflexivity.
  - apply elem_of_cons; right. apply elem_of_cons; by left.
  - apply elem_of_cons; right. apply elem_of_cons; right. apply elem_of_cons; by left.
  - intros c. simpl. unfold fs_example. by rewrite !lookup_insert_ne.
Qed.

(** C2 (amended). Let an image have annotations of two distinct categories
    and a source file that exists.  When the copy loop reaches the image
    (the annotation loop finishes and every image id annotated before it is
    listed in the images list), the names of the annotation file are plain
    and nothing is in the way of the file-system calls, [process_split]
    copies the image into exactly one category directory: the iteration for
    the image makes one [shutil.copy2] call, into the directory of the
    selected category, and after the run that destination holds the bytes
    of the source file.  When no other annotated image has its file name,
    the destination under every other category is after the run what it was
    before, and the run has made no other [shutil.copy2] call for the file.
    This holds whether the run returns normally or fails on a later
    image. *)
Theorem C2_multi_category_copied_once json_decode (order : set_order) output_dir
    json_path img_dir split_name fs content data l1 cats l2 a1 a2 c1 c2 fn bytes :
  stat fs json_path = Some (File content) →
  json_decode content = Some data →
  plain_data data →
  env_ok output_dir [img_dir] fs →
  incomparable img_dir output_dir →
  a1 ∈ annotations data → a2 ∈ annotations data →
  image_id a1 = image_id a2 →
  category_map data !! category_id a1 = Some c1 →
  category_map data !! category_id a2 = Some c2 →
  c1 ≠ c2 →
  image_categories data = Ok (l1 ++ (image_id a1, cats) :: l2) →
  (∀ j s, (j, s) ∈ l1 → is_Some (image_map data !! j)) →
  image_map data !! image_id a1 = Some fn →
  fs !! path_join img_dir fn = Some (File bytes) →
  let o := process_split json_decode order output_dir json_path img_dir split_name fs in
  let body := process_image order output_dir (image_map data) img_dir split_name in
  let src := path_join img_dir fn in
  let dst c := path_join (path_join (path_join output_dir split_name) c) fn in
  ∃ c, head (order cats) = Some c ∧ c ∈ cats ∧ c1 ∈ cats ∧ c2 ∈ cats ∧
    log (body (image_id a1, cats) (fs_of (for_each l1 body fs)))
    = [Makedirs (path_join (path_join output_dir split_name) c); Copy2 src (dst c);
       Print ("Copied " +:+ fn +:+ " to " +:+ split_name +:+ "/" +:+ c +:+ "/")] ∧
    fs_of o !! dst c = Some (File bytes) ∧
    ((∀ b, b ∈ annotations data →
           image_map data !! image_id b = Some fn → image_id b = image_id a1) →
     (∀ c', c' ≠ c → fs_of o !! dst c' = fs !! dst c') ∧
     List.filter (copies_from src) (log o) = [Copy2 src (dst c)]).
Proof.
  intros Hst Hdec _ Henv Hinc Ha1 Ha2 Hsame Hc1 Hc2 Hne Hic Hl1 Hfn Hsrc o body src dst.
  pose proof (image_categories_wf _ _ Hic) as [Hkeys Hwf].
  assert (Hin : (image_id a1, cats) ∈ l1 ++ (image_id a1, cats) :: l2).
  { apply elem_of_app; right. apply elem_of_cons; by left. }
  destruct (image_categories_complete _ _ _ Hic Ha1) as (cats1 & c1' & Hin1 & Hc1' & Hc1in).
  destruct (image_categories_complete _ _ _ Hic Ha2) as (cats2 & c2' & Hin2 & Hc2' & Hc2in).
  rewrite <- Hsame in Hin2.
  assert (cats1 = cats) as ->.
  { pose proof (elem_of_dict_lookup _ _ _ Hkeys Hin).
    pose proof (elem_of_dict_lookup _ _ _ Hkeys Hin1). congruence. }
  assert (cats2 = cats) as ->.
  { pose proof (elem_of_dict_lookup _ _ _ Hkeys Hin).
    pose proof (elem_of_dict_lookup _ _ _ Hkeys Hin2). congruence. }
  assert (c1' = c1) as -> by congruence. assert (c2' = c2) as -> by congruence.
  destruct (Hwf _ _ Hin) as [Hndc Hnec].
  destruct (set_order_nonempty order cats Hndc Hnec) as (c & r & Hoc).
  assert (Hc : head (order cats) = Some c) by by rewrite Hoc.
  assert (Hloop : o = for_each (l1 ++ (image_id a1, cats) :: l2) body fs)
    by by apply process_split_loop with (content := content).
  destruct (copy_loop_reaches order output_dir img_dir Hinc (image_map data) split_name
              l1 (image_id a1) cats l2 fn c r fs Hwf Hl1 Hfn Hoc Henv)
    as (Hx & Henvx & Hagx & Hrun).
  change (process_image order output_dir (image_map data) img_dir split_name)
    with body in Hx, Henvx, Hagx, Hrun.
  rewrite Hsrc in Hx.
  set (o1 := for_each l1 body fs) in *.
  set (ox := body (image_id a1, cats) (fs_of o1)) in *.
  set (o2 := for_each l2 body (fs_of ox)) in *.
  exists c. split_and!; try done.
  - by apply (head_set_order order).
  - by rewrite Hx.
  - rewrite Hloop, Hrun. cbn [fs_of]. unfold o2, body.
    apply (copy_loop_keeps_destination order output_dir img_dir Hinc (image_map data)
             split_name l2 fs).
    + intros j s Hj. apply (Hwf j s). apply elem_of_app; right.
      apply elem_of_cons; by right.
    + done.
    + done.
    + done.
    + change (process_image order output_dir (image_map data) img_dir split_name)
        with body. fold ox. rewrite Hx. simpl. apply lookup_insert_eq.
  - intros Huniq.
    assert (Hnd : NoDup (l1.*1 ++ image_id a1 :: l2.*1)).
    { by rewrite fmap_app, fmap_cons in Hkeys. }
    apply NoDup_app in Hnd as (_ & Hnd1 & [Hnd2 _]%NoDup_cons).
    assert (Hk1 : ∀ j s, (j, s) ∈ l1 → j ≠ image_id a1).
    { intros j s Hj ->. apply (Hnd1 (image_id a1)).
      - apply list_elem_of_fmap. by exists (image_id a1, s).
      - apply elem_of_cons; by left. }
    assert (Hk2 : ∀ j s, (j, s) ∈ l2 → j ≠ image_id a1).
    { intros j s Hj ->. apply Hnd2. apply list_elem_of_fmap. by exists (image_id a1, s). }
    assert (Hsub1 : l1 ⊆ l1 ++ (image_id a1, cats) :: l2).
    { intros y Hy. apply elem_of_app; by left. }
    assert (Hsub2 : l2 ⊆ l1 ++ (image_id a1, cats) :: l2).
    { intros y Hy. apply elem_of_app; right. apply elem_of_cons; by right. }
    assert (Hfilter : List.filter (copies_from src) (log o) = [Copy2 src (dst c)]).
    { rewrite Hloop, Hrun. cbn [log]. rewrite !List.filter_app.
      unfold o1, o2, body, src.
      rewrite (copy_loop_other_sources order output_dir img_dir data split_name
                 _ (image_id a1) fn l1 fs Hic Huniq Hk1 Hsub1).
      rewrite (copy_loop_other_sources order output_dir img_dir data split_name
                 _ (image_id a1) fn l2 _ Hic Huniq Hk2 Hsub2).
      change (process_image order output_dir (image_map data) img_dir split_name)
        with body. fold o1 ox. rewrite Hx. simpl.
      rewrite (bool_decide_eq_true_2 (path_join img_dir fn = path_join img_dir fn))
        by done.
      done. }
    split; [|done]. intros c' Hc'.
    destruct (decide (fs_of o !! dst c' = fs !! dst c')) as [|Hch]; [done|].
    apply destination_changed in Hch.
    assert (Hf : Copy2 src (dst c') ∈ List.filter (copies_from src) (log o)).
    { apply list_elem_of_In, List.filter_In. split; [by apply list_elem_of_In|].
      simpl. by apply bool_decide_eq_true_2. }
    rewrite Hfilter in Hf. apply list_elem_of_singleton in Hf.
    injection Hf as Hf. unfold dst in Hf.
    apply path_join_inj in Hf as [Hf _]. by apply path_join_inj in Hf as [_ ->].
Qed.

Lemma C2_multi_category_copied_once_witness :
  let o := process_split decode_example reverse_order ["out"] train_json
             train_img_dir "train" (fs_example "two") in
  let body := process_image reverse_order ["out"] (image_map data_two)
                train_img_dir "train" in
  let src := path_join train_img_dir "a.jpg" in
  let dst c := path_join (path_join (path_join ["out"] "train") c) "a.jpg" in
  ∃ c, head (reverse_order ["dent"; "scratch"]) = Some c ∧
    c ∈ ["dent"; "scratch"] ∧ "dent" ∈ ["dent"; "scratch"] ∧
    "scratch" ∈ ["dent"; "scratch"] ∧
    log (body (10, ["dent"; "scratch"]) (fs_of (for_each [] body (fs_example "two"))))
    = [Makedirs (path_join (path_join ["out"] "train") c); Copy2 src (dst c);
       Print ("Copied " +:+ "a.jpg" +:+ " to " +:+ "train" +:+ "/" +:+ c +:+ "/")] ∧
    fs_of o !! dst c = Some (File "JPEG-a") ∧
    ((∀ b, b ∈ annotations data_two →
           image_map data_two !! image_id b = Some "a.jpg" → image_id b = 10) →
     (∀ c', c' ≠ c → fs_of o !! dst c' = fs_example "two" !! dst c') ∧
     List.filter (copies_from src) (log o) = [Copy2 src (dst c)]).
Proof.
  apply (C2_multi_category_copied_once decode_example reverse_order ["out"]
           train_json train_img_dir "train" (fs_example "two") "two" data_two
           [] ["dent"; "scratch"] []
           {| image_id := 10; category_id := 1 |}
           {| image_id := 10; category_id := 2 |} "dent" "scratch" "a.jpg" "JPEG-a").
  - reflexivity.
  - reflexivity.
  - by_compute.
  - apply env_ok_fs_example.
  - by_compute.
  - apply elem_of_cons; by left.
  - apply elem_of_cons; right. apply elem_of_cons; by left.
  - reflexivity.
  - reflexivity.
  - reflexivity.
  - discriminate.
  - reflexivity.
  - intros j s Hj. by apply elem_of_nil in Hj.
  - reflexivity.
  - reflexivity.
Defined.

(** C3. An annotation whose [category_id] is not a key of [category_map]
    makes [process_split] fail with a [KeyError]; the failure is raised in the
    annotation loop, before the copy loop starts: no call has been made and
    the file system is as it was. *)
Theorem C3_unknown_category_aborts json_decode (order : set_order) output_dir
    json_path img_dir split_name fs content data a :
  stat fs json_path = Some (File content) →
  json_decode content = Some data →
  a ∈ annotations data →
  category_map data !! category_id a = None →
  ∃ k, category_map data !! k = None ∧
       process_split json_decode order output_dir json_path img_dir split_name fs
       = Outcome (Raise (KeyError k)) fs [].
Proof.
  intros Hst Hdec Ha Hc.
  destruct (annotation_loop_Raise (category_map data) (annotations data) [] a Ha Hc)
    as (k & Hk & Hnone).
  exists k. split; [done|].
  unfold process_split, bind, json_load, lift, image_categories.
  by rewrite Hst, Hdec, Hk.
Qed.

Lemma C3_unknown_category_aborts_witness :
  ∃ k, category_map data_bad_category !! k = None ∧
       process_split decode_example insertion_order ["out"] train_json
         train_img_dir "train" (fs_example "bad_category")
       = Outcome (Raise (KeyError k)) (fs_example "bad_category") [].
Proof.
  apply (C3_unknown_category_aborts decode_example insertion_order ["out"]
           train_json train_img_dir "train" (fs_example "bad_category")
           "bad_category" data_bad_category {| image_id := 10; category_id := 7 |}).
  - reflexivity.
  - reflexivity.
  - apply elem_of_cons; by left.
  - reflexivity.
Defined.

(** C4. An image without annotations is not an item of [image_categories],
    so the copy loop never visits it; and when no annotated image shares its
    file name, no [shutil.copy2] call reads it from the image folder or
    writes a file of its name into a category directory. *)
Theorem C4_unannotated_image_not_copied json_decode (order : set_order) output_dir
    json_path img_dir split_name fs content data img :
  stat fs json_path = Some (File content) →
  json_decode content = Some data →
  img ∈ images data →
  (∀ a, a ∈ annotations data → image_id a ≠ img_id img) →
  (∀ ic, image_categories data = Ok ic → img_id img ∉ ic.*1) ∧
  ((∀ a, a ∈ annotations data →
      image_map data !! image_id a ≠ Some (file_name img)) →
   ∀ src dst,
     Copy2 src dst ∈
       log (process_split json_decode order output_dir json_path img_dir split_name fs) →
     src ≠ path_join img_dir (file_name img) ∧
     ∀ c, dst ≠ path_join (path_join (path_join output_dir split_name) c) (file_name img)).
Proof.
  intros Hst Hdec Himg Hnone. split.
  - intros ic Hic Hin. apply list_elem_of_fmap in Hin as ([i s] & Hi & Hin).
    simpl in Hi. subst i.
    destruct (image_categories_annotated _ _ _ _ Hic Hin) as (a & Ha & Hai).
    by apply (Hnone a).
  - intros Huniq src dst He.
    apply copy2_call_inv in He
      as (content' & data' & ic & i & cats & fn & c & Hst' & Hdec' & Hic & Hin & Hfn
          & _ & _ & _ & (a & Ha & Hai & _) & -> & ->).
    assert (data' = data) as -> by congruence.
    assert (Hne : fn ≠ file_name img).
    { intros ->. apply (Huniq a Ha). by rewrite Hai. }
    split.
    + by intros [_ ?]%path_join_inj.
    + by intros c' [_ ?]%path_join_inj.
Qed.

Lemma C4_unannotated_image_not_copied_witness :
  (∀ ic, image_categories data_two = Ok ic → 11 ∉ ic.*1) ∧
  ((∀ a, a ∈ annotations data_two → image_map data_two !! image_id a ≠ Some "b.jpg") →
   ∀ src dst,
     Copy2 src dst ∈
       log (process_split decode_example insertion_order ["out"] train_json
              train_img_dir "train" (fs_example "two")) →
     src ≠ path_join train_img_dir "b.jpg" ∧
     ∀ c, dst ≠ path_join (path_join (path_join ["out"] "train") c) "b.jpg").
Proof.
  apply (C4_unannotated_image_not_copied decode_example insertion_order ["out"]
           train_json train_img_dir "train" (fs_example "two") "two" data_two
           {| img_id := 11; file_name := "b.jpg" |}).
  - reflexivity.
  - reflexivity.
  - apply elem_of_cons; right. apply elem_of_cons; by left.
  - intros a Ha. repeat (apply elem_of_cons in Ha as [->|Ha]); try done.
    by apply elem_of_nil in Ha.
Defined.

(** C5. The claim fails on the code.  The comment above the copy loop
    promises the first category found for an image, but the code takes
    [list(categories)[0]] of a set, whose iteration order is fixed per
    interpreter process only.  Image 10 is annotated "dent", then
    "scratch".  A first run whose process lists the set as dent, scratch
    copies [a.jpg] to [dent/]; a second run on the same input, whose process
    lists it as scratch, dent, selects "scratch", which is not the first
    category found, and copies [a.jpg] to [scratch/] as well: the output
    tree after the second run differs from the one after the first. *)
Lemma C5_rerun_counterexample :
  let run order := convert_cardd_to_directory decode_example order ["out"] ["coco"] in
  let fs1 := fs_of (run insertion_order fs_cardd) in
  let fs2 := fs_of (run reverse_order fs1) in
  image_categories data_two = Ok [(10, ["dent"; "scratch"])] ∧
  head (insertion_order ["dent"; "scratch"]) = Some "dent" ∧
  head (reverse_order ["dent"; "scratch"]) = Some "scratch" ∧
  res (run insertion_order fs_cardd) = Ok tt ∧
  res (run reverse_order fs1) = Ok tt ∧
  fs1 !! ["out"; "train"; "dent"; "a.jpg"] = Some (File "JPEG-a") ∧
  fs1 !! ["out"; "train"; "scratch"; "a.jpg"] = None ∧
  fs2 !! ["out"; "train"; "scratch"; "a.jpg"] = Some (File "JPEG-a") ∧
  fs2 ≠ fs1.
Proof.
  cbv zeta. split_and!; try (vm_compute; reflexivity).
  intros H.
  apply (f_equal (λ fs : filesys, fs !! ["out"; "train"; "scratch"; "a.jpg"])) in H.
  vm_compute in H. discriminate H.
Qed.

(** C6. An annotated image whose source file is missing is skipped
    silently.  With plain names in the annotation file and nothing in the
    way of the file-system calls: no [shutil.copy2] call reads the missing
    file, no destination of that file name is written, every printed line
    reports a copy that was made, and the iteration for such an image is
    exactly the [os.makedirs] call, so it raises nothing of its own; when in
    addition no id of the annotation file dangles, the run returns
    normally. *)
Theorem C6_missing_source_skipped json_decode (order : set_order) output_dir
    json_path img_dir split_name fs content data a fn :
  stat fs json_path = Some (File content) →
  json_decode content = Some data →
  plain_data data →
  env_ok output_dir [img_dir] fs →
  incomparable img_dir output_dir →
  a ∈ annotations data →
  image_map data !! image_id a = Some fn →
  fs !! path_join img_dir fn = None →
  let o := process_split json_decode order output_dir json_path img_dir split_name fs in
  ((∀ b, b ∈ annotations data →
         is_Some (category_map data !! category_id b) ∧
         is_Some (image_map data !! image_id b)) →
   res o = Ok tt) ∧
  (∀ src dst, Copy2 src dst ∈ log o → src ≠ path_join img_dir fn) ∧
  (∀ c, let dst := path_join (path_join (path_join output_dir split_name) c) fn in
        fs_of o !! dst = fs !! dst) ∧
  prints_follow_copies output_dir img_dir split_name (log o) ∧
  (∀ cats c r fs1,
     order cats = c :: r → fs1 !! path_join img_dir fn = None →
     process_image order output_dir (image_map data) img_dir split_name
       (image_id a, cats) fs1
     = os_makedirs (path_join (path_join output_dir split_name) c) fs1).
Proof.
  intros Hst Hdec _ Henv Hinc Ha Hfn Hsrc o.
  assert (Hdir : img_dir ∈ [img_dir]) by by apply list_elem_of_singleton.
  assert (Hcopy : ∀ src dst, Copy2 src dst ∈ log o → src ≠ path_join img_dir fn).
  { unfold o. destruct (image_categories data) as [ic|e] eqn:Hic.
    - rewrite (process_split_loop _ _ _ _ _ _ _ _ _ ic Hst Hdec Hic).
      apply (copy_loop_missing_source order output_dir [img_dir]
               (singleton_apart _ _ Hinc)); [done| |done|done].
      by apply (image_categories_wf data).
    - rewrite (process_split_loaded _ _ _ _ _ _ _ _ _ Hst Hdec), Hic.
      by intros src dst ?%elem_of_nil. }
  split_and!.
  - intros Hwf.
    by apply process_split_returns with (content := content) (data := data).
  - done.
  - intros c dst.
    destruct (decide (fs_of o !! dst = fs !! dst)) as [|Hne]; [done|].
    apply destination_changed in Hne. by apply Hcopy in Hne.
  - apply process_split_prints.
  - intros cats c r fs1 Hc Hnone. by eapply process_image_missing_source.
Qed.

Lemma C6_missing_source_skipped_witness :
  let o := process_split decode_example insertion_order ["out"] train_json
             train_img_dir "train" (fs_no_image "dent") in
  ((∀ b, b ∈ annotations data_dent →
         is_Some (category_map data_dent !! category_id b) ∧
         is_Some (image_map data_dent !! image_id b)) →
   res o = Ok tt) ∧
  (∀ src dst, Copy2 src dst ∈ log o → src ≠ path_join train_img_dir "a.jpg") ∧
  (∀ c, let dst := path_join (path_join (path_join ["out"] "train") c) "a.jpg" in
        fs_of o !! dst = fs_no_image "dent" !! dst) ∧
  prints_follow_copies ["out"] train_img_dir "train" (log o) ∧
  (∀ cats c r fs1,
     insertion_order cats = c :: r → fs1 !! path_join train_img_dir "a.jpg" = None →
     process_image insertion_order ["out"] (image_map data_dent) train_img_dir "train"
       (10, cats) fs1
     = os_makedirs (path_join (path_join ["out"] "train") c) fs1).
Proof.
  apply (C6_missing_source_skipped decode_example insertion_order ["out"] train_json
           train_img_dir "train" (fs_no_image "dent") "dent" data_dent
           {| image_id := 10; category_id := 1 |} "a.jpg").
  - reflexivity.
  - reflexivity.
  - by_compute.
  - apply env_ok_fs_no_image.
  - by_compute.
  - by apply list_elem_of_singleton.
  - reflexivity.
  - reflexivity.
Defined.

(** C7. An image id that has an annotation but is missing from the images
    list makes [process_split] fail.  When the names of the annotation file
    are plain and nothing is in the way of the file-system calls, the
    failure is a [KeyError]: for that image id, or for an id met earlier
    that is missing from [category_map] or [image_map]. *)
Theorem C7_unknown_image_aborts json_decode (order : set_order) output_dir
    json_path img_dir split_name fs content data a :
  stat fs json_path = Some (File content) →
  json_decode content = Some data →
  a ∈ annotations data →
  image_map data !! image_id a = None →
  let o := process_split json_decode order output_dir json_path img_dir split_name fs in
  (∃ e, res o = Raise e) ∧
  (plain_data data → env_ok output_dir [img_dir] fs → incomparable img_dir output_dir →
   ∃ k, res o = Raise (KeyError k) ∧
        (category_map data !! k = None ∨ image_map data !! k = None)).
Proof.
  intros Hst Hdec Ha Himg o. unfold o.
  rewrite (process_split_loaded _ _ _ _ _ _ _ _ _ Hst Hdec).
  destruct (image_categories data) as [ic|e] eqn:Hic.
  - change (lift (Ok ic)) with (@ret (list (Z * list string)) ic). rewrite bind_ret.
    destruct (image_categories_complete _ _ _ Hic Ha) as (s & c & Hin & _ & _).
    assert (Hnot : res (for_each ic (process_image order output_dir (image_map data)
                                       img_dir split_name) fs) ≠ Ok tt).
    { apply (for_each_not_Ok _ _ _ Hin). intros fs1.
      by rewrite process_image_KeyError. }
    split.
    + destruct (res _) as [[]|e]; [done|by exists e].
    + intros _ Henv Hinc.
      destruct (copy_loop_env order output_dir [img_dir] (singleton_apart _ _ Hinc)
                  (image_map data) img_dir split_name ic fs)
        as (_ & [Hok|(e & He & k & -> & _ & Hk)]);
        [by apply list_elem_of_singleton|by eapply image_categories_wf|done|done|].
      exists k. split; [done|by right].
  - unfold image_categories in Hic.
    destruct (annotation_loop_Ok_or_KeyError (category_map data) (annotations data) [])
      as [(d & Hd)|(k & Hk & Hnone)]; [congruence|].
    rewrite Hk in Hic. injection Hic as <-. split.
    + by eexists.
    + intros _ _ _. exists k. split; [done|by left].
Qed.

Lemma C7_unknown_image_aborts_witness :
  let o := process_split decode_example insertion_order ["out"] train_json
             train_img_dir "train" (fs_example "bad_image") in
  (∃ e, res o = Raise e) ∧
  ∃ k, res o = Raise (KeyError k) ∧
       (category_map data_bad_image !! k = None ∨ image_map data_bad_image !! k = None).
Proof.
  pose proof (C7_unknown_image_aborts decode_example insertion_order ["out"]
                train_json train_img_dir "train" (fs_example "bad_image")
                "bad_image" data_bad_image {| image_id := 99; category_id := 1 |}
                eq_refl eq_refl) as H.
  destruct H as [H1 H2].
  - apply elem_of_cons; right. apply elem_of_cons; by left.
  - reflexivity.
  - split; [exact H1|]. apply H2; [by_compute|apply env_ok_fs_example|by_compute].
Defined.

(** C8. With categories {1: "dent"}, images {10: "a.jpg"} and the single
    annotation (image 10, category 1), and [a.jpg] present in the image
    folder, the split makes one directory call, one copy and prints one
    line; afterwards [output_dir/<split>/dent/a.jpg] holds the bytes of the
    source file, and it is the only file the run has written. *)
Theorem C8_single_annotation json_decode (order : set_order) output_dir
    json_path img_dir split_name fs content bytes :
  stat fs json_path = Some (File content) →
  json_decode content = Some data_dent →
  fs !! path_join img_dir "a.jpg" = Some (File bytes) →
  env_ok output_dir [img_dir] fs →
  incomparable img_dir output_dir →
  let o := process_split json_decode order output_dir json_path img_dir split_name fs in
  let category_dir := path_join (path_join output_dir split_name) "dent" in
  let dst := path_join category_dir "a.jpg" in
  o = Outcome (Ok tt) (<[dst := File bytes]> (makedirs_fs category_dir fs))
        [Makedirs category_dir; Copy2 (path_join img_dir "a.jpg") dst;
         Print ("Copied a.jpg to " +:+ split_name +:+ "/dent/")] ∧
  fs_of o !! dst = Some (File bytes) ∧
  ∀ p x, fs_of o !! p = Some (File x) → p = dst ∨ fs !! p = Some (File x).
Proof.
  intros Hst Hdec Hsrc Henv Hinc o category_dir dst.
  assert (Ho : o = Outcome (Ok tt) (<[dst := File bytes]> (makedirs_fs category_dir fs))
        [Makedirs category_dir; Copy2 (path_join img_dir "a.jpg") dst;
         Print ("Copied a.jpg to " +:+ split_name +:+ "/dent/")]).
  { unfold o.
    rewrite (process_split_loop _ _ _ _ _ _ _ _ _ [(10, ["dent"])] Hst Hdec eq_refl).
    cbn [for_each]. rewrite bind_ret_r.
    rewrite (process_image_env order output_dir [img_dir] (singleton_apart _ _ Hinc)
               (image_map data_dent) img_dir split_name 10 ["dent"] "a.jpg" "dent" []
               fs Henv); [|by apply list_elem_of_singleton|done|apply set_order_singleton].
    by rewrite Hsrc. }
  split; [done|]. rewrite Ho. simpl. split.
  - by rewrite lookup_insert_eq.
  - intros p x. rewrite lookup_insert. case_decide as Hp; [by left|].
    rewrite lookup_makedirs_fs. case_bool_decide; [done|by right].
Qed.

Lemma C8_single_annotation_witness :
  let o := process_split decode_example reverse_order ["out"] train_json
             train_img_dir "train" (fs_example "dent") in
  let category_dir := path_join (path_join ["out"] "train") "dent" in
  let dst := path_join category_dir "a.jpg" in
  o = Outcome (Ok tt)
        (<[dst := File "JPEG-a"]> (makedirs_fs category_dir (fs_example "dent")))
        [Makedirs category_dir; Copy2 (path_join train_img_dir "a.jpg") dst;
         Print ("Copied a.jpg to " +:+ "train" +:+ "/dent/")] ∧
  fs_of o !! dst = Some (File "JPEG-a") ∧
  ∀ p x, fs_of o !! p = Some (File x) →
         p = dst ∨ fs_example "dent" !! p = Some (File x).
Proof.
  apply (C8_single_annotation decode_example reverse_order ["out"] train_json
           train_img_dir "train" (fs_example "dent") "dent" "JPEG-a").
  - reflexivity.
  - reflexivity.
  - reflexivity.
  - apply env_ok_fs_example.
  - by_compute.
Defined.

(** C9 (as stated, refuted). Image 10 is annotated and listed in the
    images list, but the first annotation of the file refers to image 99,
    which is not listed: the copy loop fails on image 99 before it reaches
    image 10, no [os.makedirs] call is made and no category directory
    exists after the run. *)
Lemma C9_no_directory_counterexample :
  let o := process_split decode_dangling insertion_order ["out"] train_json
             train_img_dir "train" (fs_no_image "dangling") in
  {| image_id := 10; category_id := 1 |} ∈ annotations data_dangling_first ∧
  image_map data_dangling_first !! 10 = Some "a.jpg" ∧
  res o = Raise (KeyError 99) ∧ log o = [] ∧
  ∀ c, fs_of o !! path_join (path_join ["out"] "train") c = None.
Proof.
  assert (Ho : process_split decode_dangling insertion_order ["out"] train_json
                 train_img_dir "train" (fs_no_image "dangling")
               = Outcome (Raise (KeyError 99)) (fs_no_image "dangling") [])
    by reflexivity.
  cbv zeta. rewrite Ho. split_and!; try reflexivity.
  - apply elem_of_cons; right. apply elem_of_cons; by left.
  - intros c. simpl. unfold fs_no_image. by rewrite lookup_insert_ne.
Qed.

(** C9 (amended). Let an image id have an annotation and be listed in
    [image_map].  When the annotation loop finishes, every image id
    annotated before it is listed in [image_map], the names of the
    annotation file are plain and nothing is in the way of the file-system
    calls, [process_split] calls [os.makedirs] for the directory of the
    selected category, [output_dir/<split_name>/<category>], and that
    directory exists after the run, whether the source file exists or not
    and whether the run returns normally or fails on a later image.  When
    the source file is missing the iteration is the [os.makedirs] call
    alone, so the directory it creates receives no file from it. *)
Theorem C9_category_directory_created json_decode (order : set_order) output_dir
    json_path img_dir split_name fs content data l1 i cats l2 fn :
  stat fs json_path = Some (File content) →
  json_decode content = Some data →
  plain_data data →
  env_ok output_dir [img_dir] fs →
  incomparable img_dir output_dir →
  image_categories data = Ok (l1 ++ (i, cats) :: l2) →
  (∀ j s, (j, s) ∈ l1 → is_Some (image_map data !! j)) →
  image_map data !! i = Some fn →
  let o := process_split json_decode order output_dir json_path img_dir split_name fs in
  ∃ c, head (order cats) = Some c ∧ c ∈ cats ∧
    let category_dir := path_join (path_join output_dir split_name) c in
    Makedirs category_dir ∈ log o ∧
    fs_of o !! category_dir = Some Dir ∧
    ∀ fs1, fs1 !! path_join img_dir fn = None →
      process_image order output_dir (image_map data) img_dir split_name (i, cats) fs1
      = os_makedirs category_dir fs1.
Proof.
  intros Hst Hdec _ Henv Hinc Hic Hl1 Hfn o.
  set (body := process_image order output_dir (image_map data) img_dir split_name).
  pose proof (image_categories_wf _ _ Hic) as [Hkeys Hwf].
  assert (Hin : (i, cats) ∈ l1 ++ (i, cats) :: l2).
  { apply elem_of_app; right. apply elem_of_cons; by left. }
  destruct (Hwf _ _ Hin) as [Hndc Hnec].
  destruct (set_order_nonempty order cats Hndc Hnec) as (c & r & Hoc).
  assert (Hc : head (order cats) = Some c) by by rewrite Hoc.
  assert (Hloop : o = for_each (l1 ++ (i, cats) :: l2) body fs)
    by by apply process_split_loop with (content := content).
  destruct (copy_loop_reaches order output_dir img_dir Hinc (image_map data) split_name
              l1 i cats l2 fn c r fs Hwf Hl1 Hfn Hoc Henv)
    as (Hx & _ & _ & Hrun).
  change (process_image order output_dir (image_map data) img_dir split_name)
    with body in Hx, Hrun.
  set (category_dir := path_join (path_join output_dir split_name) c) in *.
  set (o1 := for_each l1 body fs) in *.
  set (ox := body (i, cats) (fs_of o1)) in *.
  set (o2 := for_each l2 body (fs_of ox)) in *.
  assert (Hmk : makedirs_fs category_dir (fs_of o1) !! category_dir = Some Dir).
  { rewrite lookup_makedirs_fs, bool_decide_eq_true_2; [done|].
    apply ancestors_self, path_join_ne_nil. }
  assert (Hlogx : Makedirs category_dir ∈ log ox ∧ fs_of ox !! category_dir = Some Dir).
  { rewrite Hx. destruct (fs !! path_join img_dir fn) as [[|bytes]|]; simpl.
    - split; [by apply list_elem_of_singleton|done].
    - split; [apply elem_of_cons; by left|].
      rewrite lookup_insert_ne; [done|].
      intros Heq%(f_equal length). unfold path_join in Heq.
      rewrite length_app in Heq. simpl in Heq. lia.
    - split; [by apply list_elem_of_singleton|done]. }
  destruct Hlogx as [Hlogx Hdirx].
  exists c. split_and!; [done|by apply (head_set_order order)|]. cbv zeta.
  fold category_dir. split_and!.
  - rewrite Hloop, Hrun. cbn [log]. apply elem_of_app; right. apply elem_of_app; by left.
  - rewrite Hloop, Hrun. cbn [fs_of]. unfold o2, body.
    by apply (monotone_copy_loop order output_dir (image_map data) img_dir split_name l2).
  - intros fs1 Hnone.
    by apply (process_image_missing_source order output_dir _ _ _ _ _ fn c r).
Qed.

Lemma C9_category_directory_created_witness :
  let o := process_split decode_example insertion_order ["out"] train_json
             train_img_dir "train" (fs_no_image "bad_image") in
  ∃ c, head (insertion_order ["dent"]) = Some c ∧ c ∈ ["dent"] ∧
    let category_dir := path_join (path_join ["out"] "train") c in
    Makedirs category_dir ∈ log o ∧
    fs_of o !! category_dir = Some Dir ∧
    ∀ fs1, fs1 !! path_join train_img_dir "a.jpg" = None →
      process_image insertion_order ["out"] (image_map data_bad_image) train_img_dir
        "train" (10, ["dent"]) fs1
      = os_makedirs category_dir fs1.
Proof.
  apply (C9_category_directory_created decode_example insertion_order ["out"]
           train_json train_img_dir "train" (fs_no_image "bad_image") "bad_image"
           data_bad_image [] 10 ["dent"] [(99, ["dent"])] "a.jpg").
  - reflexivity.
  - reflexivity.
  - by_compute.
  - apply env_ok_fs_no_image.
  - by_compute.
  - reflexivity.
  - intros j s Hj. by apply elem_of_nil in Hj.
  - reflexivity.
Defined.

(** A run over a missing source file leaves an empty category directory. *)
Example empty_category_directory :
  let o := process_split decode_example insertion_order ["out"] train_json
             train_img_dir "train" (fs_no_image "dent") in
  res o = Ok tt ∧
  fs_of o !! ["out"; "train"; "dent"] = Some Dir ∧
  ∀ p, ["out"; "train"; "dent"] `prefix_of` p → p ≠ ["out"; "train"; "dent"] →
       fs_of o !! p = None.
Proof.
  split_and!; [reflexivity|reflexivity|].
  intros p Hp Hne.
  assert (Ho : process_split decode_example insertion_order ["out"] train_json
                 train_img_dir "train" (fs_no_image "dent")
               = os_makedirs ["out"; "train"; "dent"] (fs_no_image "dent")).
  { reflexivity. }
  rewrite Ho. unfold os_makedirs.
  replace (existsb _ _) with false by reflexivity. simpl fs_of.
  rewrite lookup_makedirs_fs. rewrite bool_decide_eq_false_2.
  - unfold fs_no_image. rewrite lookup_insert_ne; [apply lookup_empty|].
    intros <-. by apply prefix_cons_inv_1 in Hp.
  - intros Hin. pose proof (ancestors_length _ _ Hin) as Hlen.
    apply elem_of_ancestors in Hin as [_ Hin].
    apply Hne. apply (prefix_length_eq _ _ Hin). by apply prefix_length.
Qed.

(** C10 (as stated, refuted). Nothing keeps [output_dir] out of [coco_dir]:
    with [output_dir = coco_dir/out] the converter creates directories and
    files under [coco_dir]. *)
Lemma C10_frame_counterexample :
  ¬ ∀ p, ["coco"] `prefix_of` p →
      fs_of (convert_cardd_to_directory decode_example insertion_order
               ["coco"; "out"] ["coco"] fs_cardd) !! p = fs_cardd !! p.
Proof.
  intros H. specialize (H ["coco"; "out"; "train"; "dent"; "a.jpg"]).
  vm_compute in H. discriminate H. by exists ["out"; "train"; "dent"; "a.jpg"].
Qed.

(** C10 (amended). When neither of [coco_dir] and [output_dir] lies
    inside the other and every category name and file name in the three
    annotation files is plain, every node the converter creates or
    overwrites is [output_dir] itself, a directory above it or a path below
    it: every other path holds after the run what it held before.  In
    particular no file or directory under [coco_dir], annotation files and
    source images included, is modified, deleted or created. *)
Theorem C10_writes_confined json_decode (order : set_order) output_dir coco_dir fs p :
  incomparable coco_dir output_dir →
  (∀ name content data,
     name ∈ ["instances_train2017.json"; "instances_val2017.json";
             "instances_test2017.json"] →
     fs !! path_join (path_join coco_dir "annotations") name = Some (File content) →
     json_decode content = Some data → plain_data data) →
  let fs' := fs_of (convert_cardd_to_directory json_decode order output_dir coco_dir fs) in
  (¬ region output_dir p → fs' !! p = fs !! p) ∧
  (coco_dir `prefix_of` p → fs' !! p = fs !! p).
Proof.
  intros Hinc _. split.
  - apply convert_frame.
  - intros Hp. apply convert_frame. by eapply incomparable_under.
Qed.

Lemma C10_writes_confined_witness :
  let fs' := fs_of (convert_cardd_to_directory decode_example insertion_order
                      ["out"] ["coco"] fs_cardd) in
  (¬ region ["out"] ["coco"; "train2017"; "a.jpg"] →
   fs' !! ["coco"; "train2017"; "a.jpg"] = fs_cardd !! ["coco"; "train2017"; "a.jpg"]) ∧
  (["coco"] `prefix_of` ["coco"; "train2017"; "a.jpg"] →
   fs' !! ["coco"; "train2017"; "a.jpg"] = fs_cardd !! ["coco"; "train2017"; "a.jpg"]).
Proof.
  apply (C10_writes_confined decode_example insertion_order ["out"] ["coco"]
           fs_cardd ["coco"; "train2017"; "a.jpg"]).
  - by_compute.
  - intros name content data _ _. apply decode_example_plain.
Defined.

(** * Further properties of the converter *)

(** ** The lookup tables *)

Section DictComprehension.

Context {A : Type} (key : A → Z) (val : A → string).

(** [{key(x): val(x) for x in l}], built on top of [m]. *)
Lemma build_lookup_notin (m : gmap Z string) (l : list A) (k : Z) :
  k ∉ key <$> l →
  foldl (λ m x, <[key x := val x]> m) m l !! k = m !! k.
Proof.
  revert m. induction l as [|x l IH]; intros m Hk; [done|].
  rewrite fmap_cons, not_elem_of_cons in Hk. destruct Hk as [Hne Hk].
  cbn [foldl]. rewrite IH by done. by rewrite lookup_insert_ne.
Qed.

Lemma build_lookup_None (m : gmap Z string) (l : list A) (k : Z) :
  foldl (λ m x, <[key x := val x]> m) m l !! k = None ↔
  m !! k = None ∧ k ∉ key <$> l.
Proof.
  revert m. induction l as [|x l IH]; intros m.
  - cbn [foldl]. split; [|by intros [? _]].
    intros ?; split; [done|by intros ?%elem_of_nil].
  - cbn [foldl]. rewrite IH, fmap_cons, not_elem_of_cons.
    rewrite lookup_insert. destruct (decide (key x = k)) as [Hk|Hk].
    + split; [by intros [? _]|]. intros [_ [? _]]. congruence.
    + split; [intros [? ?]; split_and!; [done|congruence|done]|].
      intros [? [_ ?]]. done.
Qed.

Lemma build_lookup_last (m : gmap Z string) (l later : list A) (x : A) :
  key x ∉ key <$> later →
  foldl (λ m x, <[key x := val x]> m) m (l ++ x :: later) !! key x = Some (val x).
Proof.
  intros Hk. rewrite foldl_app. cbn [foldl].
  rewrite (build_lookup_notin _ later (key x) Hk). apply lookup_insert_eq.
Qed.

End DictComprehension.

(** X1. [category_map] has no entry for an id exactly when no category
    carries that id; when an id is declared several times, the name of the
    last declaration is the one looked up. *)
Theorem X1_category_map_lookup data :
  (∀ k, category_map data !! k = None ↔ k ∉ cat_id <$> categories data) ∧
  (∀ l cat later,
     categories data = l ++ cat :: later →
     cat_id cat ∉ cat_id <$> later →
     category_map data !! cat_id cat = Some (cat_name cat)).
Proof.
  unfold category_map. split.
  - intros k. rewrite (build_lookup_None cat_id cat_name), lookup_empty. tauto.
  - intros l cat later -> Hlater. by apply (build_lookup_last cat_id cat_name).
Qed.

Lemma X1_category_map_lookup_witness :
  category_map data_interleaved !! 1 = Some "crack" ∧
  (category_map data_interleaved !! 7 = None ↔
   7 ∉ cat_id <$> categories data_interleaved).
Proof.
  split.
  - apply (proj2 (X1_category_map_lookup data_interleaved)
             [ {| cat_id := 1; cat_name := "dent" |};
               {| cat_id := 2; cat_name := "scratch" |} ]
             {| cat_id := 1; cat_name := "crack" |} []).
    + reflexivity.
    + by intros ?%elem_of_nil.
  - apply (proj1 (X1_category_map_lookup data_interleaved) 7).
Defined.

(** X2. [image_map] has no entry for an id exactly when no image carries
    that id (the lookup of such an id is the [KeyError] of the copy loop);
    an image listed after all other images of the same id is looked up
    under its own file name. *)
Theorem X2_image_map_lookup data :
  (∀ k, image_map data !! k = None ↔ k ∉ img_id <$> images data) ∧
  (∀ l img later,
     images data = l ++ img :: later →
     img_id img ∉ img_id <$> later →
     image_map data !! img_id img = Some (file_name img)).
Proof.
  unfold image_map. split.
  - intros k. rewrite (build_lookup_None img_id file_name), lookup_empty. tauto.
  - intros l img later -> Hlater. by apply (build_lookup_last img_id file_name).
Qed.

Lemma X2_image_map_lookup_witness :
  image_map data_interleaved !! 10 = Some "a.jpg" ∧
  (image_map data_interleaved !! 99 = None ↔
   99 ∉ img_id <$> images data_interleaved).
Proof.
  split.
  - apply (proj2 (X2_image_map_lookup data_interleaved) []
             {| img_id := 10; file_name := "a.jpg" |}
             [ {| img_id := 20; file_name := "b.jpg" |} ]).
    + reflexivity.
    + intros Hin. apply list_elem_of_singleton in Hin. discriminate Hin.
  - apply (proj1 (X2_image_map_lookup data_interleaved) 99).
Defined.

(** ** The grouping of annotations *)

(** X3. When the annotation loop finishes, [image_categories] has one item
    per annotated image id, each image id of an annotation is a key, and
    the set stored for an image holds exactly the names of the categories
    its annotations refer to, without repetition and never empty. *)
Theorem X3_image_categories_content data ic :
  image_categories data = Ok ic →
  NoDup ic.*1 ∧
  (∀ a, a ∈ annotations data → image_id a ∈ ic.*1) ∧
  (∀ i cats, (i, cats) ∈ ic →
     NoDup cats ∧ cats ≠ [] ∧
     ∀ c, c ∈ cats ↔
          ∃ a, a ∈ annotations data ∧ image_id a = i ∧
               category_map data !! category_id a = Some c).
Proof.
  intros Hic. pose proof (image_categories_wf _ _ Hic) as [Hkeys Hwf].
  split_and!; [done| |].
  - intros a Ha.
    destruct (image_categories_complete _ _ _ Hic Ha) as (s & c & Hin & _).
    apply list_elem_of_fmap. by exists (image_id a, s).
  - intros i cats Hin. destruct (Hwf _ _ Hin) as [Hnd Hne].
    split_and!; [done|done|]. intros c. split.
    + by apply (image_categories_sound _ _ _ _ _ Hic Hin).
    + intros (a & Ha & Hai & Hc).
      pose proof (annotation_loop_lookup _ _ _ _ Hic i c) as Hl.
      rewrite (elem_of_dict_lookup _ _ _ Hkeys Hin) in Hl. simpl in Hl.
      apply Hl. right. by exists a.
Qed.

Lemma X3_image_categories_content_witness :
  let ic := [(20, ["scratch"; "crack"]); (10, ["crack"])] in
  NoDup ic.*1 ∧
  (∀ a, a ∈ annotations data_interleaved → image_id a ∈ ic.*1) ∧
  (∀ i cats, (i, cats) ∈ ic →
     NoDup cats ∧ cats ≠ [] ∧
     ∀ c, c ∈ cats ↔
          ∃ a, a ∈ annotations data_interleaved ∧ image_id a = i ∧
               category_map data_interleaved !! category_id a = Some c).
Proof.
  apply (X3_image_categories_content data_interleaved). reflexivity.
Defined.

Lemma filter_first_occurrences_seen (seen : list Z) (i : Z) (l : list Z) :
  i ∈ seen →
  filter (λ y, y ∉ seen) (filter (λ y, y ≠ i) l) = filter (λ y, y ∉ seen) l.
Proof.
  intros Hi. rewrite list_filter_filter. apply list_filter_iff.
  intros y. split; [by intros [? _]|]. intros Hy. split; [done|]. by intros ->.
Qed.

Lemma filter_first_occurrences_new (seen : list Z) (i : Z) (l : list Z) :
  filter (λ y, y ∉ seen ++ [i]) l = filter (λ y, y ∉ seen) (filter (λ y, y ≠ i) l).
Proof.
  rewrite list_filter_filter. apply list_filter_iff. intros y.
  rewrite elem_of_app, list_elem_of_singleton. tauto.
Qed.

Lemma annotation_loop_key_order cm anns d d' :
  annotation_loop cm anns d = Ok d' →
  d'.*1 = d.*1 ++ filter (λ y, y ∉ d.*1) (first_occurrences (image_id <$> anns)).
Proof.
  revert d. induction anns as [|a anns IH]; intros d; cbn [annotation_loop].
  - intros [= <-]. rewrite fmap_nil. cbn [first_occurrences].
    by rewrite filter_nil, app_nil_r.
  - destruct (cm !! category_id a) as [c|]; [|done]. intros Hloop.
    rewrite (IH _ Hloop), keys_defaultdict_add. rewrite fmap_cons.
    cbn [first_occurrences].
    destruct (decide (image_id a ∈ d.*1)) as [Hin|Hnin].
    + rewrite bool_decide_eq_true_2 by done.
      rewrite filter_cons_False by (by intros ?).
      by rewrite filter_first_occurrences_seen.
    + rewrite bool_decide_eq_false_2 by done.
      rewrite filter_cons_True by done.
      rewrite filter_first_occurrences_new, <- app_assoc. done.
Qed.

Lemma filter_not_in_nil (l : list Z) : filter (λ y, y ∉ @nil Z) l = l.
Proof.
  induction l as [|x l IH]; [done|].
  rewrite filter_cons_True by (by intros ?%elem_of_nil). by rewrite IH.
Qed.

(** X4. The items of [image_categories], which the copy loop visits in
    order, are the annotated image ids in the order of their first
    annotation. *)
Theorem X4_image_categories_order data ic :
  image_categories data = Ok ic →
  ic.*1 = first_occurrences (image_id <$> annotations data).
Proof.
  intros Hic. rewrite (annotation_loop_key_order _ _ _ _ Hic).
  rewrite fmap_nil, app_nil_l. apply filter_not_in_nil.
Qed.

Lemma X4_image_categories_order_witness :
  [(20, ["scratch"; "crack"]); (10, ["crack"])].*1
  = first_occurrences (image_id <$> annotations data_interleaved).
Proof.
  apply (X4_image_categories_order data_interleaved). reflexivity.
Defined.

(** ** Exceptions *)

Lemma raises_only_bind {A B : Type} (E : exn → Prop) (m : M A) (k : A → M B) :
  raises_only E m →
  (∀ a fs, res (m fs) = Ok a → raises_only E (k a)) →
  raises_only E (bind m k).
Proof.
  intros Hm Hk fs e.
  destruct (bind_cases m k fs) as [(a & Ha & -> & _)|(e' & He' & -> & _)].
  - by apply (Hk a fs Ha).
  - intros [= <-]. by apply (Hm fs).
Qed.

Lemma raises_only_for_each {A : Type} (E : exn → Prop) (l : list A)
    (body : A → M unit) :
  (∀ x, x ∈ l → raises_only E (body x)) → raises_only E (for_each l body).
Proof.
  induction l as [|x l IH]; intros Hbody; cbn [for_each].
  - by intros fs e.
  - apply raises_only_bind.
    + apply Hbody. apply elem_of_cons; by left.
    + intros _ _ _. apply IH. intros y Hy. apply Hbody. apply elem_of_cons; by right.
Qed.

Lemma raises_only_Ok {A : Type} (E : exn → Prop) (m : M A) :
  (∀ fs, ∃ a, res (m fs) = Ok a) → raises_only E m.
Proof. intros H fs e He. destruct (H fs) as [a Ha]. congruence. Qed.

Lemma raises_only_makedirs (E : exn → Prop) (p : path) :
  E OSError → raises_only E (os_makedirs p).
Proof.
  intros HE fs e. unfold os_makedirs. destruct (existsb _ _); [|done].
  by intros [= <-].
Qed.

Lemma raises_only_copy2 (E : exn → Prop) (src dst : path) :
  E OSError → raises_only E (shutil_copy2 src dst).
Proof.
  intros HE fs e. unfold shutil_copy2.
  destruct (stat fs src) as [[|c]|]; try (by intros [= <-]).
  simpl. repeat (case_bool_decide || case_match); try done; by intros [= <-].
Qed.

Lemma raises_only_process_image (E : exn → Prop) (order : set_order) out imap
    img_dir split_name i cats :
  NoDup cats → cats ≠ [] →
  E OSError → (imap !! i = None → E (KeyError i)) →
  raises_only E (process_image order out imap img_dir split_name (i, cats)).
Proof.
  intros Hnd Hne HOS HKey. destruct (set_order_nonempty order cats Hnd Hne) as (c & r & Hc).
  unfold process_image, dict_get, list_first. rewrite Hc.
  apply raises_only_bind.
  { destruct (imap !! i); [by intros fs e|].
    intros fs e [= <-]. by apply HKey. }
  intros fn _ _. apply raises_only_bind; [by intros fs e|]. intros c' _ _.
  apply raises_only_bind; [by apply raises_only_makedirs|]. intros _ _ _.
  apply raises_only_bind; [by intros fs e|]. intros [|] _ _; [|by intros fs e].
  apply raises_only_bind; [by apply raises_only_copy2|]. intros _ _ _. by intros fs e.
Qed.

(** X5. A split whose annotation file has been read, with plain names,
    fails only with an [OSError] of a file-system call or with the
    [KeyError] of an id that is missing from [category_map] or from
    [image_map].  The indexing [list(categories)[0]] never raises: a set
    stored in [image_categories] is never empty. *)
Theorem X5_split_exceptions json_decode (order : set_order) output_dir
    json_path img_dir split_name fs content data e :
  stat fs json_path = Some (File content) →
  json_decode content = Some data →
  plain_data data →
  res (process_split json_decode order output_dir json_path img_dir split_name fs)
  = Raise e →
  split_exn data e ∧ e ≠ IndexError ∧ e ≠ ValueError.
Proof.
  intros Hst Hdec _ He.
  assert (Hexn : split_exn data e).
  { rewrite (process_split_loaded _ _ _ _ _ _ _ _ _ Hst Hdec) in He.
    revert He. generalize fs e.
    change (raises_only (split_exn data)
              (bind (lift (image_categories data))
                 (λ ic, for_each ic (process_image order output_dir (image_map data)
                                       img_dir split_name)))).
    apply raises_only_bind.
    { intros fs' e'. unfold lift, image_categories. simpl.
      destruct (annotation_loop_Ok_or_KeyError (category_map data) (annotations data) [])
        as [(d & ->)|(k & -> & Hk)]; [done|].
      intros [= <-]. right. exists k. split; [done|by left]. }
    intros ic fs' Hic. simpl in Hic. apply raises_only_for_each. intros [i cats] Hin.
    destruct (image_categories_wf _ _ Hic) as [_ Hwf]. destruct (Hwf _ _ Hin).
    apply raises_only_process_image; [done|done|by left|].
    intros Hi. right. exists i. split; [done|by right]. }
  split; [done|].
  split; intros ->; by destruct Hexn as [?|(k & ? & _)].
Qed.

Lemma X5_split_exceptions_witness :
  split_exn data_bad_image (KeyError 99) ∧
  KeyError 99 ≠ IndexError ∧ KeyError 99 ≠ ValueError.
Proof.
  apply (X5_split_exceptions decode_example insertion_order ["out"] train_json
           train_img_dir "train" (fs_example "bad_image") "bad_image" data_bad_image).
  - reflexivity.
  - reflexivity.
  - by_compute.
  - reflexivity.
Defined.

(** ** What the converter never removes *)

Lemma keeps_kinds_same {A : Type} (m : M A) :
  (∀ fs, fs_of (m fs) = fs) → keeps_kinds m.
Proof. intros H fs p n Hp. rewrite H. by exists n. Qed.

Lemma keeps_kinds_bind {A B : Type} (m : M A) (k : A → M B) :
  keeps_kinds m → (∀ a, keeps_kinds (k a)) → keeps_kinds (bind m k).
Proof.
  intros Hm Hk fs p n Hp.
  destruct (bind_cases m k fs) as [(a & Ha & _ & -> & _)|(e & He & _ & -> & _)].
  - destruct (Hm fs p n Hp) as (n1 & H1 & Hd1).
    destruct (Hk a _ p n1 H1) as (n2 & H2 & Hd2).
    exists n2. split; [done|]. by rewrite Hd1.
  - by apply Hm.
Qed.

Lemma keeps_kinds_for_each {A : Type} (l : list A) (body : A → M unit) :
  (∀ x, keeps_kinds (body x)) → keeps_kinds (for_each l body).
Proof.
  intros Hbody. induction l as [|x l IH]; cbn [for_each].
  - by apply keeps_kinds_same.
  - by apply keeps_kinds_bind.
Qed.

Lemma keeps_kinds_makedirs (q : path) : keeps_kinds (os_makedirs q).
Proof.
  intros fs p n Hp. unfold os_makedirs.
  destruct (existsb (is_file fs) (ancestors q)) eqn:Hex; [by exists n|]. simpl.
  rewrite lookup_makedirs_fs. case_bool_decide as Hin; [|by exists n].
  exists Dir. split; [done|]. split; [done|]. intros _.
  destruct n as [|c]; [done|]. exfalso.
  apply not_true_iff_false in Hex. apply Hex.
  apply existsb_exists. exists p. split; [by apply list_elem_of_In|].
  apply elem_of_ancestors in Hin as [Hne _].
  unfold is_file. by rewrite stat_lookup, Hp.
Qed.

Lemma keeps_kinds_copy2 (src dst : path) : keeps_kinds (shutil_copy2 src dst).
Proof.
  intros fs p n Hp. unfold shutil_copy2.
  destruct (stat fs src) as [[|c]|]; try by exists n.
  simpl. set (dst' := if is_dir fs dst then _ else dst).
  case_bool_decide; [by exists n|]. destruct (is_dir fs dst') eqn:Hd; [by exists n|].
  destruct (is_dir fs (parent dst')); [|by exists n]. simpl.
  rewrite lookup_insert. case_decide as Heq; [|by exists n]. subst p.
  exists (File c). split; [done|]. split; [|done]. intros ->.
  unfold is_dir in Hd. destruct dst'; [done|]. simpl in Hd. by rewrite Hp in Hd.
Qed.

Lemma keeps_kinds_process_split json_decode (order : set_order) out json_path
    img_dir split_name :
  keeps_kinds (process_split json_decode order out json_path img_dir split_name).
Proof.
  unfold process_split.
  apply keeps_kinds_bind; [apply keeps_kinds_same, json_load_fs|]. intros data.
  apply keeps_kinds_bind; [by apply keeps_kinds_same|]. intros ic.
  apply keeps_kinds_for_each. intros [i cats]. unfold process_image, dict_get, list_first.
  apply keeps_kinds_bind; [destruct (image_map data !! i); by apply keeps_kinds_same|].
  intros fn.
  apply keeps_kinds_bind; [destruct (order cats); by apply keeps_kinds_same|]. intros c.
  apply keeps_kinds_bind; [apply keeps_kinds_makedirs|]. intros _.
  apply keeps_kinds_bind; [by apply keeps_kinds_same|]. intros [|].
  - apply keeps_kinds_bind; [apply keeps_kinds_copy2|]. intros _.
    by apply keeps_kinds_same.
  - by apply keeps_kinds_same.
Qed.

Lemma keeps_kinds_convert json_decode (order : set_order) out coco_dir :
  keeps_kinds (convert_cardd_to_directory json_decode order out coco_dir).
Proof.
  unfold convert_cardd_to_directory.
  repeat first
    [ apply keeps_kinds_bind; [|intros _]
    | apply keeps_kinds_makedirs
    | apply keeps_kinds_process_split
    | by apply keeps_kinds_same ].
Qed.

(** X6. The converter deletes nothing: whatever exists before the run
    exists after it, a directory is still a directory and a regular file is
    still a regular file, whether the run returns normally or aborts. *)
Theorem X6_nothing_removed json_decode (order : set_order) output_dir coco_dir fs p n :
  fs !! p = Some n →
  ∃ n', fs_of (convert_cardd_to_directory json_decode order output_dir coco_dir fs) !! p
        = Some n' ∧
        (n = Dir ↔ n' = Dir).
Proof. apply keeps_kinds_convert. Qed.

Lemma X6_nothing_removed_witness :
  ∃ n', fs_of (convert_cardd_to_directory decode_example insertion_order
                 ["coco"; "train2017"] ["coco"] fs_cardd)
          !! ["coco"; "train2017"; "a.jpg"] = Some n' ∧
        (File "JPEG-a" = Dir ↔ n' = Dir).
Proof.
  apply (X6_nothing_removed decode_example insertion_order ["coco"; "train2017"]
           ["coco"] fs_cardd ["coco"; "train2017"; "a.jpg"] (File "JPEG-a")).
  reflexivity.
Defined.

(** ** The three splits in sequence *)

Lemma convert_unfold json_decode (order : set_order) out coco_dir fs :
  convert_cardd_to_directory json_decode order out coco_dir fs =
    bind (for_each ["train"; "val"; "test"] (λ split, os_makedirs (path_join out split)))
         (λ _, process_all_splits json_decode order out coco_dir) fs.
Proof. reflexivity. Qed.

Lemma layout_ok_makedirs (out rel : path) (fs : filesys) :
  layout_ok out fs → (length rel ≤ 2)%nat → layout_ok out (makedirs_fs (out ++ rel) fs).
Proof.
  intros Hlay Hrel. rewrite makedirs_fs_union.
  intros p n [Hp|[_ Hp]]%lookup_union_Some_raw; [|by apply Hlay].
  by apply (writes_ok_makedirs out rel Hrel p n).
Qed.

(** The loop of lines 32-33 when nothing is in the way. *)
Lemma split_dirs_loop (out : path) (fs : filesys) :
  layout_ok out fs →
  for_each ["train"; "val"; "test"] (λ split, os_makedirs (path_join out split)) fs =
    Outcome (Ok tt) (split_dirs_made out fs)
      [Makedirs (path_join out "train"); Makedirs (path_join out "val");
       Makedirs (path_join out "test")] ∧
  layout_ok out (split_dirs_made out fs).
Proof.
  intros Hlay. unfold split_dirs_made, path_join.
  assert (H1 := layout_ok_makedirs out ["train"] fs Hlay ltac:(simpl; lia)).
  assert (H2 := layout_ok_makedirs out ["val"] _ H1 ltac:(simpl; lia)).
  assert (H3 := layout_ok_makedirs out ["test"] _ H2 ltac:(simpl; lia)).
  split; [|done]. cbn [for_each].
  rewrite (bind_step _ _ _ _ _ _ (os_makedirs_env out ["train"] fs Hlay ltac:(simpl; lia))).
  rewrite (bind_step _ _ _ _ _ _ (os_makedirs_env out ["val"] _ H1 ltac:(simpl; lia))).
  rewrite (bind_step _ _ _ _ _ _ (os_makedirs_env out ["test"] _ H2 ltac:(simpl; lia))).
  done.
Qed.

Lemma convert_after_dirs json_decode (order : set_order) out coco_dir fs :
  layout_ok out fs →
  let o := process_all_splits json_decode order out coco_dir (split_dirs_made out fs) in
  convert_cardd_to_directory json_decode order out coco_dir fs =
    Outcome (res o) (fs_of o)
      ([Makedirs (path_join out "train"); Makedirs (path_join out "val");
        Makedirs (path_join out "test")] ++ log o).
Proof.
  intros Hlay o. rewrite convert_unfold.
  destruct (split_dirs_loop out fs Hlay) as [Hloop _].
  by rewrite (bind_step _ _ _ _ _ _ Hloop).
Qed.

(** X7. When nothing is in the way of the split directories, a failure of
    the training split ends the run with the same exception: the file
    system is the one the training split left behind and no call follows,
    so the validation and test splits are never read. *)
Theorem X7_failed_split_ends_run json_decode (order : set_order) output_dir
    coco_dir fs e :
  layout_ok output_dir fs →
  let train :=
    process_split json_decode order output_dir
      (path_join (path_join coco_dir "annotations") "instances_train2017.json")
      (path_join coco_dir "train2017") "train" (split_dirs_made output_dir fs) in
  res train = Raise e →
  convert_cardd_to_directory json_decode order output_dir coco_dir fs =
    Outcome (Raise e) (fs_of train)
      ([Makedirs (path_join output_dir "train"); Makedirs (path_join output_dir "val");
        Makedirs (path_join output_dir "test"); Print "Processing training set..."]
       ++ log train).
Proof.
  intros Hlay train Hres. rewrite (convert_after_dirs _ _ _ _ _ Hlay).
  unfold process_all_splits. cbv zeta.
  rewrite (bind_step _ _ (split_dirs_made output_dir fs) tt _
             [Print "Processing training set..."] eq_refl).
  fold train. rewrite (bind_Raise _ _ _ _ Hres). done.
Qed.

Lemma X7_failed_split_ends_run_witness :
  let train :=
    process_split decode_example insertion_order ["out"]
      (path_join (path_join ["coco"] "annotations") "instances_train2017.json")
      (path_join ["coco"] "train2017") "train" (split_dirs_made ["out"] ∅) in
  convert_cardd_to_directory decode_example insertion_order ["out"] ["coco"] ∅ =
    Outcome (Raise OSError) (fs_of train)
      ([Makedirs (path_join ["out"] "train"); Makedirs (path_join ["out"] "val");
        Makedirs (path_join ["out"] "test"); Print "Processing training set..."]
       ++ log train).
Proof.
  apply (X7_failed_split_ends_run decode_example insertion_order ["out"] ["coco"] ∅
           OSError).
  - apply layout_ok_empty.
  - reflexivity.
Defined.

Lemma monotone_process_split json_decode (order : set_order) out json_path
    img_dir split_name :
  monotone (process_split json_decode order out json_path img_dir split_name).
Proof.
  unfold process_split.
  apply monotone_bind; [apply monotone_same, json_load_fs|]. intros data.
  apply monotone_bind; [by apply monotone_same|]. intros ic.
  apply monotone_copy_loop.
Qed.

Lemma monotone_process_all_splits json_decode (order : set_order) out coco_dir :
  monotone (process_all_splits json_decode order out coco_dir).
Proof.
  unfold process_all_splits.
  repeat first
    [ apply monotone_bind; [|intros _]
    | apply monotone_process_split
    | by apply monotone_same ].
Qed.

(** X8. When nothing is in the way of the split directories, the
    directories [output_dir/train], [output_dir/val] and [output_dir/test]
    exist after the run, whether the run returns normally or aborts and
    whether or not a split has any image. *)
Theorem X8_split_directories_exist json_decode (order : set_order) output_dir
    coco_dir fs split :
  layout_ok output_dir fs →
  split ∈ ["train"; "val"; "test"] →
  fs_of (convert_cardd_to_directory json_decode order output_dir coco_dir fs)
    !! path_join output_dir split = Some Dir.
Proof.
  intros Hlay Hsplit. rewrite (convert_after_dirs _ _ _ _ _ Hlay). simpl fs_of.
  apply monotone_process_all_splits.
  unfold split_dirs_made. rewrite !lookup_makedirs_fs.
  assert (Hself : ∀ s, path_join output_dir s ∈ ancestors (path_join output_dir s)).
  { intros s. apply ancestors_self, path_join_ne_nil. }
  repeat (apply elem_of_cons in Hsplit as [->|Hsplit]).
  - rewrite (bool_decide_eq_true_2 _ (Hself "train")). by repeat case_bool_decide.
  - rewrite (bool_decide_eq_true_2 _ (Hself "val")). by repeat case_bool_decide.
  - by rewrite (bool_decide_eq_true_2 _ (Hself "test")).
  - by apply elem_of_nil in Hsplit.
Qed.

Lemma X8_split_directories_exist_witness :
  fs_of (convert_cardd_to_directory decode_example insertion_order ["out"] ["coco"] ∅)
    !! path_join ["out"] "val" = Some Dir.
Proof.
  apply (X8_split_directories_exist decode_example insertion_order ["out"] ["coco"] ∅
           "val").
  - apply layout_ok_empty.
  - apply elem_of_cons; right. apply elem_of_cons; by left.
Defined.

(** ** The completion message *)

Lemma bind_final {A : Type} (m : M A) (k : A → M unit) (ev : event) :
  (∀ fs, ev ∉ log (m fs)) →
  (∀ a fs, ev ∈ log (k a fs) ↔ res (k a fs) = Ok tt) →
  ∀ fs, ev ∈ log (bind m k fs) ↔ res (bind m k fs) = Ok tt.
Proof.
  intros Hm Hk fs.
  destruct (bind_cases m k fs) as [(a & Ha & -> & _ & ->)|(e & He & -> & _ & ->)].
  - rewrite elem_of_app, <- Hk. split; [|by right]. intros [?|?]; [|done].
    by destruct (Hm fs).
  - split; [|done]. intros ?. by destruct (Hm fs).
Qed.

Lemma completion_not_in_split json_decode (order : set_order) out json_path img_dir
    split_name fs :
  Print (completion_message out)
  ∉ log (process_split json_decode order out json_path img_dir split_name fs).
Proof.
  intros (_ & _ & _ & _ & _ & fn & c & _ & _ & _ & _ & _ & _ & He)%process_split_log_inv.
  cbv zeta in He. destruct He as [He|[He|He]]; [done|done|].
  injection He as He. unfold completion_message, newline in He. simpl in He.
  discriminate He.
Qed.

(** X9. The line "Conversion complete! Dataset saved to: ..." is printed
    exactly when the run returns normally: a run that aborts never prints
    it. *)
Theorem X9_completion_message json_decode (order : set_order) output_dir coco_dir fs :
  let o := convert_cardd_to_directory json_decode order output_dir coco_dir fs in
  Print (completion_message output_dir) ∈ log o ↔ res o = Ok tt.
Proof.
  cbv zeta. revert fs. unfold convert_cardd_to_directory.
  apply bind_final.
  { intros fs (split & fs' & _ & He)%for_each_log_elem.
    rewrite os_makedirs_log in He. by apply list_elem_of_singleton in He. }
  intros _.
  repeat (apply bind_final;
    [ first [ apply completion_not_in_split
            | intros fs He; apply list_elem_of_singleton in He;
              injection He as He; unfold completion_message, newline in He;
              simpl in He; discriminate He ]
    | intros _ ]).
  intros fs. unfold print. simpl. split; [done|]. intros _.
  by apply list_elem_of_singleton.
Qed.

(** ** A dataset without annotations *)

Lemma split_dirs_made_outside (out p : path) (fs : filesys) :
  ¬ region out p → split_dirs_made out fs !! p = fs !! p.
Proof.
  intros Hreg. unfold split_dirs_made, path_join. rewrite !lookup_makedirs_fs.
  repeat (rewrite bool_decide_eq_false_2;
          [|intros Hin; apply Hreg; by eapply region_ancestors]).
  done.
Qed.

Lemma process_split_no_annotations json_decode (order : set_order) out json_path
    img_dir split_name fs content data :
  stat fs json_path = Some (File content) → json_decode content = Some data →
  annotations data = [] →
  process_split json_decode order out json_path img_dir split_name fs
  = Outcome (Ok tt) fs [].
Proof.
  intros Hst Hdec Hann.
  rewrite (process_split_loop _ _ _ _ _ _ _ _ _ [] Hst Hdec); [done|].
  unfold image_categories. by rewrite Hann.
Qed.

(** X10. When the three annotation files decode to data without
    annotations (whatever images and categories they list), the run returns
    normally, creates the three split directories and nothing else, and
    prints its four progress lines. *)
Theorem X10_no_annotations json_decode (order : set_order) output_dir coco_dir fs :
  layout_ok output_dir fs →
  incomparable coco_dir output_dir →
  (∀ name, name ∈ ["instances_train2017.json"; "instances_val2017.json";
                   "instances_test2017.json"] →
     ∃ content data,
       fs !! path_join (path_join coco_dir "annotations") name = Some (File content) ∧
       json_decode content = Some data ∧ annotations data = []) →
  convert_cardd_to_directory json_decode order output_dir coco_dir fs =
    Outcome (Ok tt) (split_dirs_made output_dir fs)
      [Makedirs (path_join output_dir "train"); Makedirs (path_join output_dir "val");
       Makedirs (path_join output_dir "test");
       Print "Processing training set...";
       Print (newline +:+ "Processing validation set...");
       Print (newline +:+ "Processing test set...");
       Print (completion_message output_dir)].
Proof.
  intros Hlay Hinc Hfiles. rewrite (convert_after_dirs _ _ _ _ _ Hlay).
  assert (Hsplit : ∀ name img_dir split_name,
    name ∈ ["instances_train2017.json"; "instances_val2017.json";
            "instances_test2017.json"] →
    process_split json_decode order output_dir
      (path_join (path_join coco_dir "annotations") name) img_dir split_name
      (split_dirs_made output_dir fs)
    = Outcome (Ok tt) (split_dirs_made output_dir fs) []).
  { intros name img_dir split_name Hname.
    destruct (Hfiles name Hname) as (content & data & Hfile & Hdec & Hann).
    apply process_split_no_annotations with (content := content) (data := data);
      [|done|done].
    rewrite stat_lookup by apply path_join_ne_nil.
    rewrite split_dirs_made_outside; [done|].
    by apply incomparable_not_region, incomparable_join. }
  unfold process_all_splits. cbv zeta.
  rewrite (bind_step _ _ (split_dirs_made output_dir fs) tt _
             [Print "Processing training set..."] eq_refl).
  rewrite (bind_step _ _ _ _ _ _ (Hsplit "instances_train2017.json" _ "train"
             ltac:(set_solver))).
  rewrite (bind_step _ _ (split_dirs_made output_dir fs) tt _
             [Print (newline +:+ "Processing validation set...")] eq_refl).
  rewrite (bind_step _ _ _ _ _ _ (Hsplit "instances_val2017.json" _ "val"
             ltac:(set_solver))).
  rewrite (bind_step _ _ (split_dirs_made output_dir fs) tt _
             [Print (newline +:+ "Processing test set...")] eq_refl).
  rewrite (bind_step _ _ _ _ _ _ (Hsplit "instances_test2017.json" _ "test"
             ltac:(set_solver))).
  done.
Qed.

Lemma X10_no_annotations_witness :
  convert_cardd_to_directory decode_example insertion_order ["out"] ["coco"]
    fs_no_annotations =
    Outcome (Ok tt) (split_dirs_made ["out"] fs_no_annotations)
      [Makedirs (path_join ["out"] "train"); Makedirs (path_join ["out"] "val");
       Makedirs (path_join ["out"] "test");
       Print "Processing training set...";
       Print (newline +:+ "Processing validation set...");
       Print (newline +:+ "Processing test set...");
       Print (completion_message ["out"])].
Proof.
  apply (X10_no_annotations decode_example insertion_order ["out"] ["coco"]
           fs_no_annotations).
  - unfold fs_no_annotations.
    repeat (apply layout_ok_insert; [by_compute|]). apply layout_ok_empty.
  - by_compute.
  - intros name Hname. exists "empty", data_empty.
    repeat (apply elem_of_cons in Hname as [->|Hname]);
      [by split_and!|by split_and!|by split_and!|by apply elem_of_nil in Hname].
Defined.

(** ** Where the bytes end up *)

(** X11. In a run of [process_split] that returns normally, with plain
    names in the annotation file and nothing in the way of the file-system
    calls, every annotated image whose source file exists ends up at
    [output_dir/<split_name>/<selected category>/<file_name>] with the
    bytes of the source file, whatever was at that path before and whatever
    the later iterations do. *)
Theorem X11_destination_holds_source json_decode (order : set_order) output_dir
    json_path img_dir split_name fs content data ic i cats fn c bytes :
  stat fs json_path = Some (File content) →
  json_decode content = Some data →
  plain_data data →
  env_ok output_dir [img_dir] fs →
  incomparable img_dir output_dir →
  image_categories data = Ok ic →
  (i, cats) ∈ ic →
  image_map data !! i = Some fn →
  head (order cats) = Some c →
  fs !! path_join img_dir fn = Some (File bytes) →
  let o := process_split json_decode order output_dir json_path img_dir split_name fs in
  res o = Ok tt →
  fs_of o !! path_join (path_join (path_join output_dir split_name) c) fn
  = Some (File bytes).
Proof.
  intros Hst Hdec _ Henv Hinc Hic Hin Hfn Hc Hsrc o Hres.
  set (body := process_image order output_dir (image_map data) img_dir split_name).
  assert (Hloop : o = for_each ic body fs)
    by by apply process_split_loop with (content := content).
  pose proof (image_categories_wf _ _ Hic) as [_ Hwf].
  pose proof (singleton_apart _ _ Hinc) as Hapart.
  assert (Hdir : img_dir ∈ [img_dir]) by by apply list_elem_of_singleton.
  destruct (list_elem_of_split _ _ Hin) as (l1 & l2 & Hsplit).
  rewrite Hloop, Hsplit in Hres |- *.
  destruct (for_each_Ok_split _ _ _ _ _ Hres) as (_ & _ & _ & _ & ->).
  assert (Hrep1 : replayable output_dir [img_dir] (for_each l1 body)).
  { apply (replayable_for_each output_dir [img_dir] Hapart). intros item _.
    by apply replayable_process_image. }
  set (fs1 := fs_of (for_each l1 body fs)).
  assert (Henv1 : env_ok output_dir [img_dir] fs1)
    by by apply (replayable_env_ok output_dir [img_dir] Hapart).
  assert (Hag1 : agree_outside output_dir fs fs1)
    by by apply (replayable_agree output_dir [img_dir]).
  assert (Hsrc1 : fs1 !! path_join img_dir fn = Some (File bytes)).
  { rewrite <- (Hag1 (path_join img_dir fn)); [done|].
    by apply incomparable_not_region. }
  destruct (order cats) as [|c' r] eqn:Hoc; [done|]. injection Hc as ->.
  assert (Hrepx : replayable output_dir [img_dir] (body (i, cats)))
    by by apply replayable_process_image.
  apply (copy_loop_keeps_destination order output_dir img_dir Hinc (image_map data)
           split_name l2 fs).
  - intros j s Hj. apply (Hwf j s). rewrite Hsplit.
    apply elem_of_app; right. apply elem_of_cons; by right.
  - done.
  - by apply (replayable_env_ok output_dir [img_dir] Hapart).
  - apply (agree_outside_trans output_dir fs fs1); [done|].
    by apply (replayable_agree output_dir [img_dir]).
  - unfold body.
    rewrite (process_image_env order output_dir [img_dir] Hapart (image_map data)
               img_dir split_name i cats fn c r fs1 Henv1 Hdir Hfn Hoc).
    rewrite Hsrc1. simpl. apply lookup_insert_eq.
Qed.

Lemma X11_destination_holds_source_witness :
  fs_of (process_split decode_example reverse_order ["out"] train_json train_img_dir
           "train" (fs_example "two"))
    !! path_join (path_join (path_join ["out"] "train") "scratch") "a.jpg"
  = Some (File "JPEG-a").
Proof.
  apply (X11_destination_holds_source decode_example reverse_order ["out"] train_json
           train_img_dir "train" (fs_example "two") "two" data_two
           [(10, ["dent"; "scratch"])] 10 ["dent"; "scratch"] "a.jpg" "scratch" "JPEG-a").
  - reflexivity.
  - reflexivity.
  - by_compute.
  - apply env_ok_fs_example.
  - by_compute.
  - reflexivity.
  - by apply list_elem_of_singleton.
  - reflexivity.
  - reflexivity.
  - reflexivity.
  - reflexivity.
Defined.

(** ** When the set order does not matter *)

Lemma for_each_ext {A : Type} (l : list A) (body1 body2 : A → M unit) fs :
  (∀ x fs', x ∈ l → body1 x fs' = body2 x fs') →
  for_each l body1 fs = for_each l body2 fs.
Proof.
  revert fs. induction l as [|x l IH]; intros fs Hbody; [done|]. cbn [for_each].
  unfold bind. rewrite (Hbody x fs) by (apply elem_of_cons; by left).
  destruct (body2 x fs) as [[[]|e] fs1 l1]; [|done].
  rewrite IH; [done|]. intros y fs' Hy. apply Hbody. apply elem_of_cons; by right.
Qed.

Lemma NoDup_all_equal (s : list string) (c : string) :
  NoDup s → s ≠ [] → (∀ x, x ∈ s → x = c) → s = [c].
Proof.
  intros Hnd Hne Hall. destruct s as [|x s]; [done|].
  assert (x = c) as -> by (apply Hall, elem_of_cons; by left).
  destruct s as [|y s]; [done|]. exfalso.
  assert (y = c) as ->.
  { apply Hall. apply elem_of_cons; right. apply elem_of_cons; by left. }
  apply NoDup_cons in Hnd as [Hnd _]. apply Hnd. apply elem_of_cons; by left.
Qed.

(** X12. When no image of the annotation file is annotated with two
    different category names, the outcome of [process_split] (result, file
    system and calls) does not depend on the iteration order of sets. *)
Theorem X12_single_label_order_independent json_decode (order1 order2 : set_order)
    output_dir json_path img_dir split_name fs content data :
  stat fs json_path = Some (File content) →
  json_decode content = Some data →
  (∀ a b, a ∈ annotations data → b ∈ annotations data →
          image_id a = image_id b →
          category_map data !! category_id a = category_map data !! category_id b) →
  process_split json_decode order1 output_dir json_path img_dir split_name fs
  = process_split json_decode order2 output_dir json_path img_dir split_name fs.
Proof.
  intros Hst Hdec Hsingle.
  rewrite !(process_split_loaded _ _ _ _ _ _ _ _ _ Hst Hdec).
  destruct (image_categories data) as [ic|e] eqn:Hic; [|done].
  change (lift (Ok ic)) with (@ret (list (Z * list string)) ic). rewrite !bind_ret.
  apply for_each_ext. intros [i cats] fs' Hin.
  pose proof (image_categories_wf _ _ Hic) as [_ Hwf].
  destruct (Hwf _ _ Hin) as [Hnd Hne].
  destruct cats as [|c0 rest] eqn:Hcats; [done|]. rewrite <- Hcats in *.
  assert (cats = [c0]) as ->.
  { apply NoDup_all_equal; [done|done|]. intros x Hx.
    destruct (image_categories_sound _ _ _ _ _ Hic Hin Hx) as (a & Ha & Hai & Hac).
    assert (Hc0 : c0 ∈ cats) by (rewrite Hcats; apply elem_of_cons; by left).
    destruct (image_categories_sound _ _ _ _ _ Hic Hin Hc0) as (b & Hb & Hbi & Hbc).
    pose proof (Hsingle a b Ha Hb ltac:(congruence)). congruence. }
  unfold process_image. by rewrite !set_order_singleton.
Qed.

Lemma X12_single_label_order_independent_witness :
  process_split decode_example insertion_order ["out"] train_json train_img_dir
    "train" (fs_example "dent")
  = process_split decode_example reverse_order ["out"] train_json train_img_dir
      "train" (fs_example "dent").
Proof.
  apply (X12_single_label_order_independent decode_example insertion_order
           reverse_order ["out"] train_json train_img_dir "train" (fs_example "dent")
           "dent" data_dent).
  - reflexivity.
  - reflexivity.
  - intros a b Ha Hb _. apply list_elem_of_singleton in Ha, Hb. by subst.
Defined.

(** ** What an aborted split leaves behind *)

(** X13. When the copy loop reaches an image id that is missing from
    [image_map], the split fails with the [KeyError] of that id; the file
    system and the calls are exactly those of the iterations for the image
    ids annotated earlier, and no later image is processed. *)
Theorem X13_abort_keeps_earlier_work json_decode (order : set_order) output_dir
    json_path img_dir split_name fs content data l1 k cats l2 :
  stat fs json_path = Some (File content) →
  json_decode content = Some data →
  image_categories data = Ok (l1 ++ (k, cats) :: l2) →
  image_map data !! k = None →
  let earlier :=
    for_each l1 (process_image order output_dir (image_map data) img_dir split_name) fs in
  res earlier = Ok tt →
  process_split json_decode order output_dir json_path img_dir split_name fs
  = Outcome (Raise (KeyError k)) (fs_of earlier) (log earlier).
Proof.
  intros Hst Hdec Hic Hk earlier Hres.
  rewrite (process_split_loop _ _ _ _ _ _ _ _ _ _ Hst Hdec Hic).
  rewrite for_each_app. rewrite (bind_Ok _ _ _ tt Hres). fold earlier.
  cbn [for_each]. rewrite (bind_Raise _ _ _ (KeyError k));
    rewrite process_image_KeyError by done; [|done].
  simpl. by rewrite app_nil_r.
Qed.

Lemma X13_abort_keeps_earlier_work_witness :
  let earlier :=
    for_each [(10, ["dent"])]
      (process_image insertion_order ["out"] (image_map data_bad_image)
         train_img_dir "train") (fs_example "bad_image") in
  process_split decode_example insertion_order ["out"] train_json train_img_dir
    "train" (fs_example "bad_image")
  = Outcome (Raise (KeyError 99)) (fs_of earlier) (log earlier).
Proof.
  apply (X13_abort_keeps_earlier_work decode_example insertion_order ["out"]
           train_json train_img_dir "train" (fs_example "bad_image") "bad_image"
           data_bad_image [(10, ["dent"])] 99 ["dent"] []).
  - reflexivity.
  - reflexivity.
  - reflexivity.
  - reflexivity.
  - reflexivity.
Defined.

(** ** Running the converter again *)

(** X14. When the process of the second run iterates sets in the same
    order as the process of the first, neither of [coco_dir] and
    [output_dir] lies inside the other, the names in the three annotation
    files are plain and nothing is in the way of the output layout, the
    second run returns the same result, makes the same calls and leaves the
    file system exactly as the first run left it. *)
Theorem X14_rerun_same_order json_decode (order : set_order) output_dir coco_dir fs :
  incomparable coco_dir output_dir →
  env_ok output_dir (image_dirs coco_dir) fs →
  (∀ name content data,
     name ∈ ["instances_train2017.json"; "instances_val2017.json";
             "instances_test2017.json"] →
     fs !! path_join (path_join coco_dir "annotations") name = Some (File content) →
     json_decode content = Some data → plain_data data) →
  let run := convert_cardd_to_directory json_decode order output_dir coco_dir in
  run (fs_of (run fs)) = run fs.
Proof.
  intros Hinc Henv _ run.
  apply (replay_idempotent output_dir (image_dirs coco_dir)
           (image_dirs_apart _ _ Hinc) run fs); [|done].
  by apply replayable_convert.
Qed.

Lemma X14_rerun_same_order_witness :
  let run := convert_cardd_to_directory decode_example reverse_order ["out"] ["coco"] in
  run (fs_of (run fs_cardd)) = run fs_cardd.
Proof.
  apply (X14_rerun_same_order decode_example reverse_order ["out"] ["coco"] fs_cardd).
  - by_compute.
  - apply env_ok_fs_cardd.
  - intros name content data _ _. apply decode_example_plain.
Defined.
